(** * Gmail MCP server: session registry, context propagation and token registry

    A shallow embedding of the session-isolation layer of the server
    ([session-aware-transport.ts]) and of the token registry and
    authentication gate of [index.ts], with the properties the specification
    states about them.

    Conventions of the embedding.
    - A JavaScript [Map] with string keys is an insertion-ordered association
      list ([JsMap]); iteration order and in-place replacement are those of
      [Map].
    - [Date] values and [Date.now()] are integers in milliseconds ([Z]);
      two clock readings taken in one synchronous block are one reading.
    - [string | undefined] is [option string]; JavaScript truthiness of such
      a value is [truthy].
    - Mutating code threads its state explicitly through the monad [M];
      a [throw] (a rejected promise) is the outcome [Thrown].
    - The ambient [AsyncLocalStorage] store is an explicit argument: the value
      [getStore()] returns at that point of the execution.
    - The MCP SDK and the Google client libraries are outside the repository.
      Their objects are represented by the state the repository's code relies
      on, and a call into them by the event it leaves on a trace.
    - Console output is not part of the state, except the warning of the
      outbound path, which is kept as an event. *)

From Stdlib Require Import String Ascii List ZArith Bool Lia DecimalString.
Import ListNotations.

Local Open Scope Z_scope.
Local Open Scope string_scope.

(** ** JavaScript values *)

(** Truthiness of a [string | undefined]: [undefined] and the empty string are
    falsy. *)
Definition truthy (s : option string) : bool :=
  match s with
  | None => false
  | Some s' => negb (String.eqb s' "")
  end.

(** [a || b] on strings. *)
Definition or_else (s : option string) (d : string) : string :=
  match s with
  | Some s' => if String.eqb s' "" then d else s'
  | None => d
  end.

(** ** Insertion-ordered maps with string keys *)

Module JsMap.

Definition t (V : Type) : Type := list (string * V).

Section Ops.
Context {V : Type}.

Definition empty : t V := [].

Fixpoint get (k : string) (m : t V) : option V :=
  match m with
  | [] => None
  | (k', v) :: m' => if String.eqb k k' then Some v else get k m'
  end.

Definition has (k : string) (m : t V) : bool :=
  match get k m with Some _ => true | None => false end.

(** [Map.prototype.set]: an existing key keeps its position. *)
Fixpoint set (k : string) (v : V) (m : t V) : t V :=
  match m with
  | [] => [(k, v)]
  | (k', v') :: m' =>
      if String.eqb k k' then (k, v) :: m' else (k', v') :: set k v m'
  end.

Fixpoint delete (k : string) (m : t V) : t V :=
  match m with
  | [] => []
  | (k', v') :: m' =>
      if String.eqb k k' then delete k m' else (k', v') :: delete k m'
  end.

Definition entries (m : t V) : list (string * V) := m.
Definition keys (m : t V) : list string := map fst m.
Definition size (m : t V) : nat := length m.

(** A [Map] holds each key once. *)
Definition wf (m : t V) : Prop := NoDup (keys m).

End Ops.

End JsMap.

(** ** State and exceptions *)

Inductive Outcome (A : Type) : Type :=
| Returned (a : A)
| Thrown (e : string).
Arguments Returned {A} a.
Arguments Thrown {A} e.

Definition M (S A : Type) : Type := S -> Outcome A * S.

Definition ret {S A} (a : A) : M S A := fun s => (Returned a, s).

Definition bind {S A B} (c : M S A) (k : A -> M S B) : M S B :=
  fun s =>
    match c s with
    | (Returned a, s') => k a s'
    | (Thrown e, s') => (Thrown e, s')
    end.

Definition throw {S A} (e : string) : M S A := fun s => (Thrown e, s).

(** [try { body } catch (e) { handler e }]: what the body did to the state
    before it threw stays done. *)
Definition try_catch {S A} (body : M S A) (handler : string -> M S A) : M S A :=
  fun s =>
    match body s with
    | (Returned a, s') => (Returned a, s')
    | (Thrown e, s') => handler e s'
    end.

Definition get_state {S} : M S S := fun s => (Returned s, s).
Definition modify {S} (f : S -> S) : M S unit := fun s => (Returned tt, f s).

Notation "x <- c ;; k" := (bind c (fun x => k))
  (at level 61, c at next level, right associativity).
Notation "c ;;; k" := (bind c (fun _ => k))
  (at level 61, right associativity).

(** ** The protocol handler of the SDK, as the repository uses it *)

(** A request schema object; [setRequestHandler] files a handler under the
    method the schema names. *)
Record Schema : Type := { schema_method : string }.

Definition ListToolsRequestSchema : Schema := {| schema_method := "tools/list" |}.
Definition CallToolRequestSchema : Schema := {| schema_method := "tools/call" |}.

(** The two request handlers the server defines ([index.ts]). *)
Inductive Handler : Type :=
| listToolsHandler
| toolHandler.

Record ServerConfig : Type := { cfg_name : string; cfg_version : string }.

Record Server : Type := {
  serverInfo : ServerConfig;
  capabilities : string;
  _requestHandlers : JsMap.t Handler;
  connectedTo : option string
}.

Definition new_Server (cfg : ServerConfig) (caps : string) : Server :=
  {| serverInfo := cfg; capabilities := caps;
     _requestHandlers := JsMap.empty; connectedTo := None |}.

Definition setRequestHandler (srv : Server) (schema : Schema) (h : Handler) : Server :=
  {| serverInfo := serverInfo srv; capabilities := capabilities srv;
     _requestHandlers := JsMap.set (schema_method schema) h (_requestHandlers srv);
     connectedTo := connectedTo srv |}.

Definition connect (srv : Server) (transportSession : string) : Server :=
  {| serverInfo := serverInfo srv; capabilities := capabilities srv;
     _requestHandlers := _requestHandlers srv;
     connectedTo := Some transportSession |}.

(** ** session-aware-transport.ts *)

Module SessionTransport.

(** Context for each request within a session.  The [mcpServer] member is a
    reference to the session's server; the session id identifies it. *)
Record RequestContext : Type := {
  ctx_sessionId : string;
  ctx_authSessionId : string;
  ctx_requestId : string;
  ctx_startTime : Z
}.

(** [SessionAwareStreamableTransport]: the constructor fixes the session id
    the base transport reports ([sessionIdGenerator: () => sessionId]). *)
Record SessionAwareStreamableTransport : Type := {
  tr_sessionId : string;
  tr_authSessionId : string
}.

Record SessionTransportData : Type := {
  transport : SessionAwareStreamableTransport;
  mcpServer : Server;
  sessionId : string;
  authSessionId : string;
  createdAt : Z;
  lastActivity : Z;
  requestCount : Z
}.

(** What the code does to the world outside the registry. *)
Inductive Event : Type :=
| Connected (session : string)
| BaseHandleRequest (session : string) (ambient : RequestContext)
| BaseSend (session : string) (message : string) (ambient : option RequestContext)
| BaseClose (session : string)
| ConsoleWarn (text : string).

(** [SessionAwareTransportManager]: the [sessions] table and the trace. *)
Record SessionAwareTransportManager : Type := {
  sessions : JsMap.t SessionTransportData;
  trace : list Event
}.

Definition emit (e : Event) : M SessionAwareTransportManager unit :=
  modify (fun m => {| sessions := sessions m; trace := (trace m ++ [e])%list |}).

Definition set_sessions (f : JsMap.t SessionTransportData -> JsMap.t SessionTransportData)
  : M SessionAwareTransportManager unit :=
  modify (fun m => {| sessions := f (sessions m); trace := trace m |}).

(** The registration loop of [getOrCreateSession]:
    [for (const [schema, handler] of toolHandlers) mcpServer.setRequestHandler(schema, handler)]. *)
Definition register_all (toolHandlers : list (Schema * Handler)) (srv : Server) : Server :=
  fold_left (fun s sh => setRequestHandler s (fst sh) (snd sh)) toolHandlers srv.

(** The record with which an existing session answers a request. *)
Definition touch (now : Z) (sd : SessionTransportData) : SessionTransportData :=
  {| transport := transport sd; mcpServer := mcpServer sd;
     sessionId := sessionId sd; authSessionId := authSessionId sd;
     createdAt := createdAt sd;
     lastActivity := now;
     requestCount := requestCount sd + 1 |}.

(** [getOrCreateSession].  [uuid] is the value [randomUUID()] returns, [now]
    the clock.  The [req] and [res] parameters are not used by the body. *)
Definition getOrCreateSession
  (sessionId_ : option string) (isInitializeRequest : bool)
  (baseServerConfig : ServerConfig) (serverCapabilities : string)
  (toolHandlers : list (Schema * Handler))
  (uuid : string) (now : Z)
  : M SessionAwareTransportManager (SessionTransportData * bool) :=
  if negb (truthy sessionId_) && isInitializeRequest then
    let newSessionId := uuid in
    let authSessionId_ := "auth-" ++ newSessionId in
    let mcpServer0 := new_Server baseServerConfig serverCapabilities in
    let mcpServer1 := register_all toolHandlers mcpServer0 in
    let transport_ := {| tr_sessionId := newSessionId; tr_authSessionId := authSessionId_ |} in
    emit (Connected newSessionId) ;;;
    let sessionData :=
      {| transport := transport_;
         mcpServer := connect mcpServer1 newSessionId;
         sessionId := newSessionId;
         authSessionId := authSessionId_;
         createdAt := now;
         lastActivity := now;
         requestCount := 0 |} in
    set_sessions (JsMap.set newSessionId sessionData) ;;;
    ret (sessionData, true)
  else
    m <- get_state ;;
    match sessionId_ with
    | Some sid =>
        if negb (String.eqb sid "") && JsMap.has sid (sessions m) then
          match JsMap.get sid (sessions m) with
          | Some sd =>
              let sd' := touch now sd in
              set_sessions (JsMap.set sid sd') ;;;
              ret (sd', false)
          | None => throw ("Invalid session ID: " ++ or_else sessionId_ "undefined")
          end
        else throw ("Invalid session ID: " ++ or_else sessionId_ "undefined")
    | None => throw ("Invalid session ID: " ++ or_else sessionId_ "undefined")
    end.

(** [SessionAwareStreamableTransport.handleRequest]: refuses to run without an
    ambient context, then runs the base implementation under it. *)
Definition handleRequest (t : SessionAwareStreamableTransport)
  (ambient : option RequestContext) : M SessionAwareTransportManager unit :=
  match ambient with
  | None => throw ("No request context available for session " ++ tr_sessionId t)
  | Some currentContext => emit (BaseHandleRequest (tr_sessionId t) currentContext)
  end.

(** [SessionAwareStreamableTransport.send]. *)
Definition send (t : SessionAwareStreamableTransport) (message : string)
  (ambient : option RequestContext) : M SessionAwareTransportManager unit :=
  let currentContext := ambient in
  match currentContext with
  | Some _ => ret tt
  | None =>
      emit (ConsoleWarn ("No context available when sending response for session "
                           ++ tr_sessionId t))
  end ;;;
  match currentContext with
  | Some c => emit (BaseSend (tr_sessionId t) message (Some c))
  | None => emit (BaseSend (tr_sessionId t) message None)
  end.

(** [SessionAwareStreamableTransport.close]. *)
Definition close (t : SessionAwareStreamableTransport)
  : M SessionAwareTransportManager unit :=
  emit (BaseClose (tr_sessionId t)).

(** [closeSession]. *)
Definition closeSession (sessionId_ : string) : M SessionAwareTransportManager bool :=
  m <- get_state ;;
  match JsMap.get sessionId_ (sessions m) with
  | None => ret false
  | Some sessionData =>
      close (transport sessionData) ;;;
      set_sessions (JsMap.delete sessionId_) ;;;
      ret true
  end.

Definition maxAge : Z := 60 * 60 * 1000.

(** The body of the loop of [cleanupInactiveSessions], over the entries the
    iterator yields.  The loop deletes only the entry it is visiting, so the
    entries still to come are those of the table when the loop started. *)
Fixpoint cleanup_loop (now : Z) (es : list (string * SessionTransportData))
  (cleanedCount : Z) : M SessionAwareTransportManager Z :=
  match es with
  | [] => ret cleanedCount
  | (sid, sessionData) :: es' =>
      let age := now - lastActivity sessionData in
      if (age >? maxAge)%Z then
        closeSession sid ;;;
        cleanup_loop now es' (cleanedCount + 1)
      else cleanup_loop now es' cleanedCount
  end.

(** [cleanupInactiveSessions]: one tick of the sweeper, run to completion. *)
Definition cleanupInactiveSessions (now : Z) : M SessionAwareTransportManager unit :=
  m <- get_state ;;
  cleanup_loop now (JsMap.entries (sessions m)) 0 ;;;
  ret tt.

Record SessionSummary : Type := {
  sum_sessionId : string;
  sum_authSessionId : string;
  sum_requestCount : Z;
  sum_age : Z
}.

Record SessionStats : Type := {
  totalSessions : nat;
  stats_sessions : list SessionSummary
}.

Definition summary (now : Z) (e : string * SessionTransportData) : SessionSummary :=
  {| sum_sessionId := fst e;
     sum_authSessionId := authSessionId (snd e);
     sum_requestCount := requestCount (snd e);
     sum_age := now - createdAt (snd e) |}.

(** [getSessionStats]. *)
Definition getSessionStats (now : Z) (m : SessionAwareTransportManager) : SessionStats :=
  {| totalSessions := JsMap.size (sessions m);
     stats_sessions := map (summary now) (JsMap.entries (sessions m)) |}.

End SessionTransport.

(** ** index.ts: credentials on disk, token registry, authentication gate *)

Module GmailServer.

(** *** Google client objects *)

Record OAuthKeys : Type := {
  client_id : string;
  client_secret : string;
  redirect_uris : list string
}.

(** The JSON documents the code reads: an OAuth keys file with its optional
    [installed] and [web] members, or a token set written after consent. *)
Inductive Json : Type :=
| JsonKeys (installed web : option OAuthKeys)
| JsonTokens (access_token refresh_token : string).

Record OAuth2Client : Type := {
  clientId : string;
  clientSecret : string;
  redirectUri : string;
  credentials : option Json
}.

Definition setCredentials (c : OAuth2Client) (tokens : Json) : OAuth2Client :=
  {| clientId := clientId c; clientSecret := clientSecret c;
     redirectUri := redirectUri c; credentials := Some tokens |}.

(** [google.gmail({ version: 'v1', auth })]. *)
Record Gmail : Type := { gmail_auth : OAuth2Client }.

(** *** Process environment and file system *)

Record ProcessEnv : Type := {
  GMAIL_OAUTH_PATH : option string;
  GMAIL_CREDENTIALS_PATH : option string;
  homedir : string;
  cwd : string;
  argv : list string
}.

(** [path.join] of two segments, without normalisation. *)
Definition path_join (a b : string) : string := a ++ "/" ++ b.

(** A file holds a JSON document, or text [JSON.parse] rejects ([None]). *)
Definition File : Type := option Json.

(** *** Session records *)

Record SessionData : Type := {
  oauth2Client : option OAuth2Client;
  gmail : option Gmail;
  userId : option string;
  sessionToken : option string;
  tokenCreatedAt : option Z
}.

(** The module-level state of [index.ts]. *)
Record World : Type := {
  sessionStore : JsMap.t SessionData;
  tokenToSessionMap : JsMap.t string;
  CONFIG_DIR : string;
  OAUTH_PATH : string;
  CREDENTIALS_PATH : string;
  files : JsMap.t File;
  dirs : list string
}.

Definition with_registries (ss : JsMap.t SessionData) (tm : JsMap.t string)
  (w : World) : World :=
  {| sessionStore := ss; tokenToSessionMap := tm;
     CONFIG_DIR := CONFIG_DIR w; OAUTH_PATH := OAUTH_PATH w;
     CREDENTIALS_PATH := CREDENTIALS_PATH w; files := files w; dirs := dirs w |}.

Definition with_paths (c o k : string) (w : World) : World :=
  {| sessionStore := sessionStore w; tokenToSessionMap := tokenToSessionMap w;
     CONFIG_DIR := c; OAUTH_PATH := o; CREDENTIALS_PATH := k;
     files := files w; dirs := dirs w |}.

Definition with_disk (f : JsMap.t File) (d : list string) (w : World) : World :=
  {| sessionStore := sessionStore w; tokenToSessionMap := tokenToSessionMap w;
     CONFIG_DIR := CONFIG_DIR w; OAUTH_PATH := OAUTH_PATH w;
     CREDENTIALS_PATH := CREDENTIALS_PATH w; files := f; dirs := d |}.

Definition existsSync (p : string) (w : World) : bool :=
  JsMap.has p (files w) || existsb (String.eqb p) (dirs w).

(** [updatePaths]. *)
Definition updatePaths (env : ProcessEnv) (storagePath : string) (sessionId : option string)
  : M World unit :=
  modify (fun w =>
    let config_dir :=
      if truthy sessionId then path_join storagePath (or_else sessionId "")
      else storagePath in
    with_paths config_dir
      (or_else (GMAIL_OAUTH_PATH env) (path_join config_dir "gcp-oauth.keys.json"))
      (or_else (GMAIL_CREDENTIALS_PATH env) (path_join config_dir "credentials.json"))
      w).

(** [keysContent.installed || keysContent.web]. *)
Definition keys_of (j : Json) : option OAuthKeys :=
  match j with
  | JsonKeys (Some k) _ => Some k
  | JsonKeys None web => web
  | JsonTokens _ _ => None
  end.

(** The callback of [loadCredentials]: the command-line override, else the
    first stored redirect URI, else the default. *)
Definition callback_of (env : ProcessEnv) (keys : OAuthKeys) : string :=
  if match nth_error (argv env) 2 with Some a => String.eqb a "auth" | None => false end
     && truthy (nth_error (argv env) 3)
  then or_else (nth_error (argv env) 3) ""
  else or_else (nth_error (redirect_uris keys) 0) "http://localhost:3456/oauth2callback".

(** [fs.readFileSync] followed by [JSON.parse]: throws when the path is not a
    file and when the text is not JSON. *)
Definition readJsonSync (p : string) : M World Json :=
  w <- get_state ;;
  match JsMap.get p (files w) with
  | Some (Some j) => ret j
  | Some None => throw "SyntaxError: Unexpected token in JSON"
  | None => throw "ENOENT: no such file or directory"
  end.

Definition mkdirSync (p : string) : M World unit :=
  modify (fun w => with_disk (files w) (p :: dirs w) w).

Definition copyFileSync (src dst : string) : M World unit :=
  w <- get_state ;;
  match JsMap.get src (files w) with
  | Some f => modify (fun w => with_disk (JsMap.set dst f (files w)) (dirs w) w)
  | None => throw "EISDIR: illegal operation on a directory"
  end.

(** [loadCredentials]: whatever is thrown inside the [try] is caught and
    turned into [null]. *)
Definition loadCredentials (env : ProcessEnv)
  (storagePath sessionId : option string) : M World (option OAuth2Client) :=
  (if truthy storagePath || truthy sessionId
   then updatePaths env (or_else storagePath (path_join (homedir env) ".gmail-mcp")) sessionId
   else ret tt) ;;;
  try_catch
    (w0 <- get_state ;;
     (if negb (existsSync (CONFIG_DIR w0) w0) then mkdirSync (CONFIG_DIR w0) else ret tt) ;;;
     let localOAuthPath := path_join (cwd env) "gcp-oauth.keys.json" in
     w1 <- get_state ;;
     (if existsSync localOAuthPath w1 && negb (existsSync (OAUTH_PATH w1) w1)
      then copyFileSync localOAuthPath (OAUTH_PATH w1)
      else ret tt) ;;;
     w2 <- get_state ;;
     if negb (existsSync (OAUTH_PATH w2) w2) then ret None
     else
       keysContent <- readJsonSync (OAUTH_PATH w2) ;;
       match keys_of keysContent with
       | None => ret None
       | Some keys =>
           let sessionOauth2Client :=
             {| clientId := client_id keys; clientSecret := client_secret keys;
                redirectUri := callback_of env keys; credentials := None |} in
           if existsSync (CREDENTIALS_PATH w2) w2 then
             credentials_ <- readJsonSync (CREDENTIALS_PATH w2) ;;
             ret (Some (setCredentials sessionOauth2Client credentials_))
           else ret (Some sessionOauth2Client)
       end)
    (fun _ => ret None).

(** *** Token registry *)

Definition strip_dashes (s : string) : string :=
  string_of_list_ascii
    (filter (fun c => negb (Ascii.eqb c "-"%char)) (list_ascii_of_string s)).

Definition digit36 (d : Z) : ascii :=
  nth (Z.to_nat d) (list_ascii_of_string "0123456789abcdefghijklmnopqrstuvwxyz") "0"%char.

Fixpoint to36 (fuel : nat) (n : Z) (acc : string) : string :=
  match fuel with
  | O => acc
  | S fuel' =>
      let acc' := String (digit36 (n mod 36)) acc in
      if (n / 36 =? 0)%Z then acc' else to36 fuel' (n / 36) acc'
  end.

(** [n.toString(36)] for an integer [n]. *)
Definition toString36 (n : Z) : string :=
  if (n <? 0)%Z then "-" ++ to36 (S (Z.to_nat (Z.log2 (- n)))) (- n) ""
  else to36 (S (Z.to_nat (Z.log2 n))) n "".

(** [generateSessionToken]; [uuid] is what [crypto.randomUUID()] returns. *)
Definition generateSessionToken (uuid : string) (now : Z) : string :=
  "mcp_token_" ++ strip_dashes uuid ++ "_" ++ toString36 now.

(** [storeSessionData]. *)
Definition storeSessionData (sessionId : string) (client : OAuth2Client) (g : Gmail)
  (userId_ : option string) (uuid : string) (now : Z) : M World string :=
  let sessionToken_ := generateSessionToken uuid now in
  let sessionData :=
    {| oauth2Client := Some client; gmail := Some g; userId := userId_;
       sessionToken := Some sessionToken_; tokenCreatedAt := Some now |} in
  modify (fun w => with_registries (JsMap.set sessionId sessionData (sessionStore w))
                                   (tokenToSessionMap w) w) ;;;
  modify (fun w => with_registries (sessionStore w)
                                   (JsMap.set sessionToken_ sessionId (tokenToSessionMap w)) w) ;;;
  ret sessionToken_.

(** [getSessionData]. *)
Definition getSessionData (sessionId : string) : M World (option SessionData) :=
  w <- get_state ;;
  match JsMap.get sessionId (sessionStore w) with
  | Some data =>
      match oauth2Client data, gmail data with
      | Some _, Some _ => ret (Some data)
      | _, _ =>
          modify (fun w => with_registries (JsMap.delete sessionId (sessionStore w))
                                           (tokenToSessionMap w) w) ;;;
          (if truthy (sessionToken data)
           then modify (fun w => with_registries (sessionStore w)
                          (JsMap.delete (or_else (sessionToken data) "") (tokenToSessionMap w)) w)
           else ret tt) ;;;
          ret None
      end
  | None => ret None
  end.

Definition maxAge : Z := 24 * 60 * 60 * 1000.

(** [sessionData.sessionToken !== token]. *)
Definition token_differs (stored : option string) (token : string) : bool :=
  match stored with
  | Some t => negb (String.eqb t token)
  | None => true
  end.

(** [sessionData.tokenCreatedAt?.getTime() || 0]. *)
Definition created_or_zero (d : option Z) : Z :=
  match d with Some t => t | None => 0 end.

(** [validateSessionToken]; [now] is [Date.now()]. *)
Definition validateSessionToken (token : string) (now : Z)
  : M World (option (string * SessionData)) :=
  w <- get_state ;;
  match JsMap.get token (tokenToSessionMap w) with
  | None => ret None
  | Some sessionId =>
      if String.eqb sessionId "" then ret None
      else
        match JsMap.get sessionId (sessionStore w) with
        | None => ret None
        | Some sessionData =>
            if token_differs (sessionToken sessionData) token then ret None
            else
              let tokenAge := now - created_or_zero (tokenCreatedAt sessionData) in
              if (tokenAge >? maxAge)%Z then
                modify (fun w => with_registries (sessionStore w)
                                   (JsMap.delete token (tokenToSessionMap w)) w) ;;;
                modify (fun w => with_registries (JsMap.delete sessionId (sessionStore w))
                                   (tokenToSessionMap w) w) ;;;
                ret None
              else ret (Some (sessionId, sessionData))
        end
  end.

(** *** Ambient stores *)

(** [AppContext], the store of [asyncLocalStorage]. *)
Record AppContext : Type := {
  store_gmail : option Gmail;
  store_oauth2Client : option OAuth2Client;
  store_sessionId : option string;
  store_userId : option string;
  store_mcpSessionId : option string;
  store_authSessionId : option string
}.

(** The store of [requestContextStorage]. *)
Record RequestCtx : Type := {
  rc_mcpSessionId : string;
  rc_authSessionId : string
}.

(** [getSessionOAuthClient]; [store] is [asyncLocalStorage.getStore()]. *)
Definition getSessionOAuthClient (env : ProcessEnv) (sessionId : string)
  (store : option AppContext) : M World (option OAuth2Client) :=
  match match store with Some s => store_oauth2Client s | None => None end with
  | Some c => ret (Some c)
  | None =>
      sessionData <- getSessionData sessionId ;;
      match sessionData with
      | Some sd => ret (oauth2Client sd)
      | None => loadCredentials env None (Some sessionId)
      end
  end.

(** *** The tool-call handler up to the dispatch on the tool name *)

(** The arguments object of a tool call, as far as the gate reads it. *)
Record ToolArgs : Type := { arg_sessionToken : option string }.

Inductive GateResult : Type :=
| Reply (text : string)
| Proceed (store : AppContext).

Definition nl : string := String (ascii_of_nat 10) "".

Definition invalid_token_text : string :=
  "Error: Invalid or expired session token. Please authenticate again using setup_authentication.".

Definition no_authentication_text (authSessionId : string) : string :=
  "Error: No authentication found for session " ++ authSessionId
  ++ ". Please authenticate using either:" ++ nl
  ++ "1. setup_authentication tool (first time)" ++ nl
  ++ "2. authenticate_with_token tool (with your session token)" ++ nl ++ nl
  ++ "Anonymous access to other users' credentials is not allowed.".

Definition is_auth_tool (name : string) : bool :=
  String.eqb name "setup_authentication" || String.eqb name "authenticate_with_token"
  || String.eqb name "get_auth_url" || String.eqb name "check_authentication".

(** [if (!sessionOauth2Client || !gmailClient) return { ... }], then on to the
    dispatch with the store as it stands. *)
Definition gate_check (authSessionId : string)
  (sessionOauth2Client : option OAuth2Client) (gmailClient : option Gmail)
  (store : AppContext) : GateResult :=
  match sessionOauth2Client, gmailClient with
  | Some _, Some _ => Proceed store
  | _, _ => Reply (no_authentication_text authSessionId)
  end.

(** The [CallToolRequestSchema] handler from its entry to the point where the
    tool is dispatched.  [requestContext] is [requestContextStorage.getStore()],
    [args] is [request.params.arguments], [uuid] and [now] are the random
    source and the clock. *)
Definition callTool_gate (env : ProcessEnv) (requestContext : option RequestCtx)
  (name : string) (args : option ToolArgs) (uuid : string) (now : Z)
  : M World GateResult :=
  let mcpSessionId := or_else (option_map rc_mcpSessionId requestContext) "default" in
  let authSessionId :=
    or_else (option_map rc_authSessionId requestContext) ("auth-" ++ mcpSessionId) in
  existingSessionData <- getSessionData authSessionId ;;
  let initialContext :=
    match existingSessionData with
    | Some d =>
        {| store_gmail := gmail d; store_oauth2Client := oauth2Client d;
           store_sessionId := Some authSessionId; store_userId := userId d;
           store_mcpSessionId := Some mcpSessionId;
           store_authSessionId := Some authSessionId |}
    | None =>
        {| store_gmail := None; store_oauth2Client := None;
           store_sessionId := Some authSessionId; store_userId := None;
           store_mcpSessionId := Some mcpSessionId;
           store_authSessionId := Some authSessionId |}
    end in
  if is_auth_tool name then ret (Proceed initialContext)
  else
    let store := initialContext in
    match args with
    | None => throw "TypeError: Cannot read properties of undefined (reading 'sessionToken')"
    | Some a =>
        let providedToken := arg_sessionToken a in
        if truthy providedToken then
          tokenValidation <- validateSessionToken (or_else providedToken "") now ;;
          match tokenValidation with
          | Some (sid, sd) =>
              ret (gate_check authSessionId (oauth2Client sd) (gmail sd)
                     {| store_gmail := gmail sd; store_oauth2Client := oauth2Client sd;
                        store_sessionId := Some sid; store_userId := userId sd;
                        store_mcpSessionId := Some mcpSessionId;
                        store_authSessionId := Some authSessionId |})
          | None => ret (Reply invalid_token_text)
          end
        else
          match store_oauth2Client store, store_gmail store with
          | Some c, Some g => ret (gate_check authSessionId (Some c) (Some g) store)
          | _, _ =>
              sessionData <- getSessionData authSessionId ;;
              match sessionData with
              | Some sd =>
                  ret (gate_check authSessionId (oauth2Client sd) (gmail sd)
                         {| store_gmail := gmail sd; store_oauth2Client := oauth2Client sd;
                            store_sessionId := Some authSessionId; store_userId := userId sd;
                            store_mcpSessionId := store_mcpSessionId store;
                            store_authSessionId := store_authSessionId store |})
              | None =>
                  loaded <- getSessionOAuthClient env authSessionId (Some store) ;;
                  match loaded with
                  | Some client =>
                      let gmailClient := {| gmail_auth := client |} in
                      storeSessionData authSessionId client gmailClient None uuid now ;;;
                      ret (gate_check authSessionId (Some client) (Some gmailClient)
                             {| store_gmail := Some gmailClient;
                                store_oauth2Client := Some client;
                                store_sessionId := Some authSessionId;
                                store_userId := store_userId store;
                                store_mcpSessionId := store_mcpSessionId store;
                                store_authSessionId := store_authSessionId store |})
                  | None => ret (gate_check authSessionId None (store_gmail store) store)
                  end
              end
          end
    end.

(** *** The [setup_authentication] tool *)

Record SetupArgs : Type := {
  su_clientId : string;
  su_clientSecret : string;
  su_callbackUrl : string;
  su_storagePath : string;
  su_userId : option string
}.

Inductive SetupReply : Type :=
| SetupOk (sessionToken_ : string)
| SetupError (message : string).

Definition writeFileSync (p : string) (j : Json) : M World unit :=
  modify (fun w => with_disk (JsMap.set p (Some j) (files w)) (dirs w) w).

(** [authenticate].  [consent] is the token set Google returns for the code
    the browser brings back, if the user gets that far within five minutes.
    The client object is mutated by [setCredentials]; the result is the client
    as it stands afterwards.  Parsing of the callback URL is not modelled. *)
Definition authenticate (client : OAuth2Client) (sessionCredentialsPath : string)
  (consent : option Json) : M World OAuth2Client :=
  if String.eqb (redirectUri client) "" then
    throw "OAuth2 Client is not configured with a callback URL."
  else
    match consent with
    | Some tokens =>
        writeFileSync sessionCredentialsPath tokens ;;;
        ret (setCredentials client tokens)
    | None => throw "Authentication timed out after 5 minutes."
    end.

(** The [case "setup_authentication"] of the tool-call handler, inside the
    handler's [try]/[catch].  [authSessionId] is the handler's variable of
    that name, [store] is [asyncLocalStorage.getStore()]. *)
Definition tool_setup_authentication (env : ProcessEnv) (authSessionId : string)
  (store : AppContext) (a : SetupArgs) (consent : option Json)
  (uuid : string) (now : Z) : M World SetupReply :=
  try_catch
    (let userSessionId :=
       or_else (su_userId a) (or_else (store_sessionId store) authSessionId) in
     updatePaths env (su_storagePath a) (Some userSessionId) ;;;
     let oauthKeys :=
       JsonKeys None
         (Some {| client_id := su_clientId a; client_secret := su_clientSecret a;
                  redirect_uris := [su_callbackUrl a] |}) in
     w0 <- get_state ;;
     (if negb (existsSync (CONFIG_DIR w0) w0) then mkdirSync (CONFIG_DIR w0) else ret tt) ;;;
     w1 <- get_state ;;
     writeFileSync (OAUTH_PATH w1) oauthKeys ;;;
     let sessionOauth2Client :=
       {| clientId := su_clientId a; clientSecret := su_clientSecret a;
          redirectUri := su_callbackUrl a; credentials := None |} in
     w2 <- get_state ;;
     authenticated <- authenticate sessionOauth2Client (CREDENTIALS_PATH w2) consent ;;
     let gmail_ := {| gmail_auth := authenticated |} in
     sessionToken_ <- storeSessionData authSessionId authenticated gmail_ (su_userId a) uuid now ;;
     ret (SetupOk sessionToken_))
    (fun e => ret (SetupError ("Error: " ++ e))).

(** A [setup_authentication] call from its entry into the handler. *)
Definition call_setup_authentication (env : ProcessEnv) (requestContext : option RequestCtx)
  (a : SetupArgs) (consent : option Json) (uuid : string) (now : Z)
  : M World SetupReply :=
  entered <- callTool_gate env requestContext "setup_authentication"
               (Some {| arg_sessionToken := None |}) uuid now ;;
  match entered with
  | Proceed store =>
      tool_setup_authentication env (or_else (store_authSessionId store) "")
        store a consent uuid now
  | Reply text => ret (SetupError text)
  end.

(** *** Capability discovery *)

Record Tool : Type := {
  tool_name : string;
  tool_description : string;
  tool_inputSchema : string
}.

Definition mkTool (n d s : string) : Tool :=
  {| tool_name := n; tool_description := d; tool_inputSchema := s |}.

(** The list the [ListToolsRequestSchema] handler returns; the input schema is
    named by the Zod schema it is generated from. *)
Definition tools : list Tool :=
  [ mkTool "send_email"
      "Sends a new email"
      "SendEmailSchema";
    mkTool "draft_email"
      "Draft a new email"
      "SendEmailSchema";
    mkTool "read_email"
      "Retrieves the content of a specific email"
      "ReadEmailSchema";
    mkTool "search_emails"
      "Searches for emails using Gmail search syntax"
      "SearchEmailsSchema";
    mkTool "modify_email"
      "Modifies email labels (move to different folders)"
      "ModifyEmailSchema";
    mkTool "delete_email"
      "Permanently deletes an email"
      "DeleteEmailSchema";
    mkTool "list_email_labels"
      "Retrieves all available Gmail labels"
      "ListEmailLabelsSchema";
    mkTool "batch_modify_emails"
      "Modifies labels for multiple emails in batches"
      "BatchModifyEmailsSchema";
    mkTool "batch_delete_emails"
      "Permanently deletes multiple emails in batches"
      "BatchDeleteEmailsSchema";
    mkTool "create_label"
      "Creates a new Gmail label"
      "CreateLabelSchema";
    mkTool "update_label"
      "Updates an existing Gmail label"
      "UpdateLabelSchema";
    mkTool "delete_label"
      "Deletes a Gmail label"
      "DeleteLabelSchema";
    mkTool "get_or_create_label"
      "Gets an existing label by name or creates it if it doesn't exist"
      "GetOrCreateLabelSchema";
    mkTool "download_attachment"
      "Downloads an email attachment to a specified location"
      "DownloadAttachmentSchema";
    mkTool "get_auth_url"
      "Sets up OAuth configuration and returns authentication URL for user to visit"
      "GetAuthUrlSchema";
    mkTool "check_authentication"
      "Checks if authentication is complete and returns session token if successful"
      "CheckAuthenticationSchema";
    mkTool "setup_authentication"
      "Sets up and performs authentication with Google Cloud OAuth (legacy - use get_auth_url + check_authentication instead)"
      "SetupAuthenticationSchema";
    mkTool "authenticate_with_token"
      "Authenticate using a previously received session token"
      "AuthenticateWithTokenSchema" ].

(** The operation names a caller can dispatch on (the [case] labels of the
    tool-call handler). *)
Definition operation_names : list string :=
  [ "send_email"; "draft_email"; "read_email"; "search_emails"; "modify_email";
    "delete_email"; "list_email_labels"; "batch_modify_emails";
    "batch_delete_emails"; "create_label"; "update_label"; "delete_label";
    "get_or_create_label"; "download_attachment"; "get_auth_url";
    "check_authentication"; "setup_authentication"; "authenticate_with_token" ].

(** A discovery request as the protocol handler serves it: the handler filed
    under ["tools/list"] answers; without one the method is not found. *)
Definition listTools (srv : Server) : Outcome (list Tool) :=
  match JsMap.get (schema_method ListToolsRequestSchema) (_requestHandlers srv) with
  | Some listToolsHandler => Returned tools
  | Some toolHandler =>
      Thrown "TypeError: Cannot read properties of undefined (reading 'name')"
  | None => Thrown "Method not found"
  end.

(** Modelled from the spec: the handler table the HTTP entry point hands to
    [getOrCreateSession] is built outside the sources at hand; section 4.2
    requires it to hold the capability-discovery handler and the invocation
    handler, each under its request schema. *)
Definition toolHandlers : list (Schema * Handler) :=
  [ (ListToolsRequestSchema, listToolsHandler);
    (CallToolRequestSchema, toolHandler) ].

End GmailServer.

(** ** Derived notions and sample states

    Values the statements below are phrased with, and small concrete states
    on which they are exercised. *)

Module Scenarios.

Import SessionTransport.

(** The record [getOrCreateSession] builds for a new session. *)
Definition new_session (cfg : ServerConfig) (caps : string)
  (th : list (Schema * Handler)) (uuid : string) (now : Z) : SessionTransportData :=
  {| transport := {| tr_sessionId := uuid; tr_authSessionId := "auth-" ++ uuid |};
     mcpServer := connect (register_all th (new_Server cfg caps)) uuid;
     sessionId := uuid;
     authSessionId := "auth-" ++ uuid;
     createdAt := now;
     lastActivity := now;
     requestCount := 0 |}.

(** The methods a handler table files handlers under. *)
Definition methods_of (th : list (Schema * Handler)) : list string :=
  map (fun sh => schema_method (fst sh)) th.

(** The sweeper's test on one record. *)
Definition idle (now : Z) (sd : SessionTransportData) : bool :=
  (now - lastActivity sd >? maxAge)%Z.

Definition demo_cfg : ServerConfig := {| cfg_name := "gmail"; cfg_version := "1.0.0" |}.

Definition demo_session (id : string) (last : Z) : SessionTransportData :=
  {| transport := {| tr_sessionId := id; tr_authSessionId := "auth-" ++ id |};
     mcpServer := connect (new_Server demo_cfg "tools") id;
     sessionId := id; authSessionId := "auth-" ++ id;
     createdAt := 0; lastActivity := last; requestCount := 3 |}.

(** Two sessions: [s1] last active at 1 s, [s2] at 4000 s. *)
Definition demo_manager : SessionAwareTransportManager :=
  {| sessions := [("s1", demo_session "s1" 1000); ("s2", demo_session "s2" 4000000)];
     trace := [] |}.

Definition demo_transport : SessionAwareStreamableTransport :=
  {| tr_sessionId := "s1"; tr_authSessionId := "auth-s1" |}.

End Scenarios.

Module TokenScenarios.

Import GmailServer.

(** Checks (a) and (b) of token validation: the token is a key of the token
    table, it maps to a non-empty session id, the record of that session
    exists and the token stored in it is the presented one. *)
Definition bound_to (token : string) (w : World) (sid : string) (sd : SessionData) : Prop :=
  JsMap.get token (tokenToSessionMap w) = Some sid
  /\ sid <> ""
  /\ JsMap.get sid (sessionStore w) = Some sd
  /\ sessionToken sd = Some token.

(** The age the expiry check computes. *)
Definition token_age (now : Z) (sd : SessionData) : Z :=
  now - created_or_zero (tokenCreatedAt sd).

(** The record [storeSessionData] files for a session. *)
Definition issued_record (client : OAuth2Client) (g : Gmail) (uid : option string)
  (token : string) (t0 : Z) : SessionData :=
  {| oauth2Client := Some client; gmail := Some g; userId := uid;
     sessionToken := Some token; tokenCreatedAt := Some t0 |}.

Definition plain_env : ProcessEnv :=
  {| GMAIL_OAUTH_PATH := None; GMAIL_CREDENTIALS_PATH := None;
     homedir := "/home/node"; cwd := "/app"; argv := ["node"; "dist/index.js"; "--http"] |}.

(** The module state at start-up, on an empty disk. *)
Definition initial_world (env : ProcessEnv) : World :=
  {| sessionStore := JsMap.empty; tokenToSessionMap := JsMap.empty;
     CONFIG_DIR := path_join (homedir env) ".gmail-mcp";
     OAUTH_PATH := or_else (GMAIL_OAUTH_PATH env)
                     (path_join (path_join (homedir env) ".gmail-mcp") "gcp-oauth.keys.json");
     CREDENTIALS_PATH := or_else (GMAIL_CREDENTIALS_PATH env)
                     (path_join (path_join (homedir env) ".gmail-mcp") "credentials.json");
     files := JsMap.empty; dirs := [] |}.

Definition client_of (who : string) : OAuth2Client :=
  {| clientId := "client-id"; clientSecret := "client-secret";
     redirectUri := "http://localhost:3456/oauth2callback";
     credentials := Some (JsonTokens ("access-" ++ who) ("refresh-" ++ who)) |}.

Definition gmail_of (who : string) : Gmail := {| gmail_auth := client_of who |}.

(** Session [auth-A] authenticated at clock 1000. *)
Definition issued_once : World :=
  snd (storeSessionData "auth-A" (client_of "A") (gmail_of "A") None
         "11111111-1111-4111-8111-111111111111" 1000 (initial_world plain_env)).

Definition first_token : string :=
  generateSessionToken "11111111-1111-4111-8111-111111111111" 1000.

(** The same session authenticated again at clock 2000. *)
Definition issued_twice : World :=
  snd (storeSessionData "auth-A" (client_of "A") (gmail_of "A") None
         "22222222-2222-4222-8222-222222222222" 2000 issued_once).

Definition second_token : string :=
  generateSessionToken "22222222-2222-4222-8222-222222222222" 2000.

Definition day : Z := 24 * 60 * 60 * 1000.

(** The deployment of the README: both paths set through the environment. *)
Definition docker_env : ProcessEnv :=
  {| GMAIL_OAUTH_PATH := Some "/config/gcp-oauth.keys.json";
     GMAIL_CREDENTIALS_PATH := Some "/config/credentials.json";
     homedir := "/home/node"; cwd := "/app"; argv := ["node"; "dist/index.js"; "--http"] |}.

Definition app_keys : OAuthKeys :=
  {| client_id := "client-id"; client_secret := "client-secret";
     redirect_uris := ["http://localhost:3456/oauth2callback"] |}.

Definition request_of_A : RequestCtx :=
  {| rc_mcpSessionId := "A"; rc_authSessionId := "auth-A" |}.

Definition setup_of_A : SetupArgs :=
  {| su_clientId := "client-id"; su_clientSecret := "client-secret";
     su_callbackUrl := "http://localhost:3456/oauth2callback";
     su_storagePath := "/home/node/.gmail-mcp";
     su_userId := None |}.

(** Tenant A has been through [setup_authentication] under [docker_env], with
    Google granting the token set [access-A]/[refresh-A]. *)
Definition after_A_authenticated : World :=
  snd (call_setup_authentication docker_env (Some request_of_A) setup_of_A
         (Some (JsonTokens "access-A" "refresh-A"))
         "11111111-1111-4111-8111-111111111111" 1000 (initial_world docker_env)).

(** No environment override; only the application's OAuth keys file lies in
    the working directory, and nobody has authenticated. *)
Definition keys_in_cwd : World :=
  with_disk [ ("/app/gcp-oauth.keys.json", Some (JsonKeys None (Some app_keys))) ]
            ["/app"] (initial_world plain_env).

Definition request_of_B : RequestCtx :=
  {| rc_mcpSessionId := "B"; rc_authSessionId := "auth-B" |}.

Definition no_token : ToolArgs := {| arg_sessionToken := None |}.

End TokenScenarios.

(** ** session-aware-transport.ts: request handling and shutdown *)

Module SessionRequests.

Import SessionTransport.

(** The [id] member of a JSON-RPC request body. *)
Inductive JsonRpcId : Type :=
| IdString (s : string)
| IdNumber (n : Z).

(** [requestBody.id || randomUUID()]: a missing id, the empty string and the
    number zero are falsy.  A numeric id is kept by its decimal rendering,
    which is all the code does with it (interpolation and JSON output). *)
Definition request_id (id : option JsonRpcId) (uuid : string) : string :=
  match id with
  | Some (IdString s) => if String.eqb s "" then uuid else s
  | Some (IdNumber n) =>
      if (n =? 0)%Z then uuid else DecimalString.NilZero.string_of_int (Z.to_int n)
  | None => uuid
  end.

(** The body [handleSessionRequest] answers with when the request fails. *)
Record ErrorBody : Type := {
  err_code : Z;
  err_message : string;
  err_sessionId : string;
  err_id : string
}.

(** The Express response, as far as the code looks at it and writes to it. *)
Record Response : Type := {
  headersSent : bool;
  written : option (Z * ErrorBody)
}.

Record Exchange : Type := {
  manager : SessionAwareTransportManager;
  res : Response
}.

Definition on_manager {A} (c : M SessionAwareTransportManager A) : M Exchange A :=
  fun x =>
    match c (manager x) with
    | (r, m') => (r, {| manager := m'; res := res x |})
    end.

(** [res.status(code).json(body)]. *)
Definition respond (code : Z) (body : ErrorBody) : M Exchange unit :=
  modify (fun x => {| manager := manager x;
                      res := {| headersSent := true; written := Some (code, body) |} |}).

(** What the base transport does with a request once the override has handed
    it on: it may send the headers and it may throw. *)
Record BaseOutcome : Type := {
  base_sends_headers : bool;
  base_throws : option string
}.

Definition base_handling (b : BaseOutcome) : M Exchange unit :=
  modify (fun x => {| manager := manager x;
                      res := {| headersSent := headersSent (res x) || base_sends_headers b;
                                written := written (res x) |} |}) ;;;
  match base_throws b with
  | Some e => throw e
  | None => ret tt
  end.

(** The request context [handleSessionRequest] builds. *)
Definition context_of (sessionData : SessionTransportData) (requestId : string) (now : Z)
  : RequestContext :=
  {| ctx_sessionId := sessionId sessionData;
     ctx_authSessionId := authSessionId sessionData;
     ctx_requestId := requestId;
     ctx_startTime := now |}.

(** [handleSessionRequest]: [id] is [requestBody.id], [uuid] what
    [randomUUID()] would give, [now] the clock, [b] the conduct of the base
    transport.  Everything inside [requestContextStorage.run] sees the
    context built here as the ambient one. *)
Definition handleSessionRequest (sessionData : SessionTransportData)
  (id : option JsonRpcId) (uuid : string) (now : Z) (b : BaseOutcome)
  : M Exchange unit :=
  let requestId := request_id id uuid in
  let requestContext := context_of sessionData requestId now in
  try_catch
    (on_manager (handleRequest (transport sessionData) (Some requestContext)) ;;;
     base_handling b)
    (fun error =>
       x <- get_state ;;
       (if negb (headersSent (res x))
        then respond 500
               {| err_code := -32603;
                  err_message := "Internal server error in session context";
                  err_sessionId := sessionId sessionData;
                  err_id := requestId |}
        else ret tt) ;;;
       throw error).

(** [getCurrentRequestContext]. *)
Definition getCurrentRequestContext (ambient : option RequestContext)
  : option RequestContext := ambient.

(** The loop of [destroy] over the ids collected beforehand. *)
Fixpoint close_each (sessionIds : list string) : M SessionAwareTransportManager unit :=
  match sessionIds with
  | [] => ret tt
  | sessionId_ :: rest => closeSession sessionId_ ;;; close_each rest
  end.

(** [destroy]; the interval timer is not part of the state. *)
Definition destroy : M SessionAwareTransportManager unit :=
  m <- get_state ;;
  close_each (JsMap.keys (sessions m)).

(** The event closing the transport of a table entry leaves. *)
Definition close_event (e : string * SessionTransportData) : Event :=
  BaseClose (tr_sessionId (transport (snd e))).

(** The last element of a list of clocks, [d] if there is none. *)
Definition last_clock (clocks : list Z) (d : Z) : Z := last clocks d.

(** A session serving the requests that arrive at the given clocks. *)
Fixpoint serve (sid : string) (cfg : ServerConfig) (caps : string)
  (th : list (Schema * Handler)) (uuid : string) (clocks : list Z)
  : M SessionAwareTransportManager unit :=
  match clocks with
  | [] => ret tt
  | now :: rest =>
      getOrCreateSession (Some sid) false cfg caps th uuid now ;;;
      serve sid cfg caps th uuid rest
  end.

End SessionRequests.

(** ** index.ts: sweeper, transport teardown, token and completion tools *)

Module GmailServerMore.

Import GmailServer.

(** A computation that leaves both registries as it found them. *)
Definition keeps_registries {A : Type} (c : M World A) : Prop :=
  forall w, sessionStore (snd (c w)) = sessionStore w
            /\ tokenToSessionMap (snd (c w)) = tokenToSessionMap w.

(** A computation that changes no session record other than that of [a]. *)
Definition touches_only (a : string) {A : Type} (c : M World A) : Prop :=
  forall w k, k <> a ->
    JsMap.get k (sessionStore (snd (c w))) = JsMap.get k (sessionStore w).

(** The auth session id the tool-call handler works under. *)
Definition auth_id_of (requestContext : option RequestCtx) : string :=
  or_else (option_map rc_authSessionId requestContext)
    ("auth-" ++ or_else (option_map rc_mcpSessionId requestContext) "default").

Definition delete_token (token : string) : M World unit :=
  modify (fun w => with_registries (sessionStore w)
                     (JsMap.delete token (tokenToSessionMap w)) w).

Definition delete_session (sessionId : string) : M World unit :=
  modify (fun w => with_registries (JsMap.delete sessionId (sessionStore w))
                     (tokenToSessionMap w) w).

(** The test both the sweeper and the validator apply to a record. *)
Definition expired (now : Z) (sd : SessionData) : bool :=
  (now - created_or_zero (tokenCreatedAt sd) >? maxAge)%Z.

(** The body of the loop of [startSessionCleanup], over the entries the
    iterator yields; only the entry being visited is ever deleted. *)
Fixpoint sessionCleanup_loop (now : Z) (es : list (string * SessionData))
  (cleanedCount : Z) : M World Z :=
  match es with
  | [] => ret cleanedCount
  | (sessionId, sessionData) :: es' =>
      let tokenAge := now - created_or_zero (tokenCreatedAt sessionData) in
      if (tokenAge >? maxAge)%Z then
        (if truthy (sessionToken sessionData)
         then delete_token (or_else (sessionToken sessionData) "")
         else ret tt) ;;;
        delete_session sessionId ;;;
        sessionCleanup_loop now es' (cleanedCount + 1)
      else sessionCleanup_loop now es' cleanedCount
  end.

(** One firing of the interval of [startSessionCleanup]. *)
Definition sessionCleanup (now : Z) : M World Z :=
  w <- get_state ;;
  sessionCleanup_loop now (JsMap.entries (sessionStore w)) 0.

(** The HTTP server of [startHttpServer]: the module state and the table of
    streamable transports (each entry stands for the transport object filed
    under that session id). *)
Record HttpState : Type := {
  world : World;
  streamable : JsMap.t unit
}.

Definition on_world {A} (c : M World A) : M HttpState A :=
  fun x =>
    match c (world x) with
    | (r, w') => (r, {| world := w'; streamable := streamable x |})
    end.

(** [transport.onclose]; the argument is [transport.sessionId]. *)
Definition transport_onclose (transportSessionId : option string) : M HttpState unit :=
  if truthy transportSessionId then
    let authSessionId := "auth-" ++ or_else transportSessionId "" in
    x <- get_state ;;
    match JsMap.get authSessionId (sessionStore (world x)) with
    | Some sessionData =>
        if truthy (sessionToken sessionData)
        then on_world (delete_token (or_else (sessionToken sessionData) ""))
        else ret tt
    | None => ret tt
    end ;;;
    on_world (delete_session authSessionId) ;;;
    modify (fun x => {| world := world x;
                        streamable := JsMap.delete (or_else transportSessionId "")
                                        (streamable x) |})
  else ret tt.

(** What the token and completion tools answer; the wording of the message
    is left out. *)
Inductive TokenAuthReply : Type :=
| TokenAuthOk (user : option string) (session : string) (validUntil : option Z)
              (store : option AppContext)
| TokenAuthFailed.

(** The [case "authenticate_with_token"] of the tool-call handler, for
    arguments that pass the schema (a string token).  [store] is
    [asyncLocalStorage.getStore()]; the store returned is that object after
    the update. *)
Definition tool_authenticate_with_token (store : option AppContext)
  (sessionToken_ : string) (now : Z) : M World TokenAuthReply :=
  tokenValidation <- validateSessionToken sessionToken_ now ;;
  match tokenValidation with
  | None => ret TokenAuthFailed
  | Some (sid, sd) =>
      let store' :=
        match store with
        | Some s =>
            Some {| store_gmail := gmail sd; store_oauth2Client := oauth2Client sd;
                    store_sessionId := Some sid; store_userId := userId sd;
                    store_mcpSessionId := store_mcpSessionId s;
                    store_authSessionId := store_authSessionId s |}
        | None => None
        end in
      ret (TokenAuthOk (userId sd) sid
             (match tokenCreatedAt sd with
              | Some t => Some (t + 24 * 60 * 60 * 1000)
              | None => None
              end)
             store')
  end.

(** An entry of [pendingAuthStore]; the HTTP server object it holds is
    represented by whether it is still listening. *)
Record PendingAuth : Type := {
  pa_oauth2Client : OAuth2Client;
  pa_listening : bool;
  pa_userId : option string;
  pa_callbackUrl : string
}.

Record AuthState : Type := {
  auth_world : World;
  pendingAuthStore : JsMap.t PendingAuth;
  closed_servers : list string
}.

Definition on_auth_world {A} (c : M World A) : M AuthState A :=
  fun x =>
    match c (auth_world x) with
    | (r, w') => (r, {| auth_world := w'; pendingAuthStore := pendingAuthStore x;
                        closed_servers := closed_servers x |})
    end.

(** [validatedArgs.userId || store?.sessionId || authSessionId]. *)
Definition user_session_of (userId_ : option string) (store : option AppContext)
  (authSessionId : string) : string :=
  or_else userId_
    (or_else (match store with Some s => store_sessionId s | None => None end)
             authSessionId).

Record CheckArgs : Type := {
  ck_userId : option string;
  ck_storagePath : string
}.

Inductive CheckReply : Type :=
| NoPendingAuthentication (session : string)
| NotYetComplete
| AuthenticationCompleted (sessionToken_ : string) (store : option AppContext).

(** The [case "check_authentication"] of the tool-call handler, for
    arguments that pass the schema.  [authSessionId] is the handler's variable
    of that name, [store] is [asyncLocalStorage.getStore()]; the store
    returned is that object after the update. *)
Definition tool_check_authentication (env : ProcessEnv) (authSessionId : string)
  (store : option AppContext) (a : CheckArgs) (uuid : string) (now : Z)
  : M AuthState CheckReply :=
  let userSessionId := user_session_of (ck_userId a) store authSessionId in
  on_auth_world (updatePaths env (ck_storagePath a) (Some userSessionId)) ;;;
  x <- get_state ;;
  match JsMap.get authSessionId (pendingAuthStore x) with
  | None => ret (NoPendingAuthentication authSessionId)
  | Some pendingAuth =>
      if negb (existsSync (CREDENTIALS_PATH (auth_world x)) (auth_world x))
      then ret NotYetComplete
      else
        let sessionOauth2Client := pa_oauth2Client pendingAuth in
        modify (fun x => {| auth_world := auth_world x;
                            pendingAuthStore :=
                              JsMap.delete authSessionId (pendingAuthStore x);
                            closed_servers := (closed_servers x ++ [authSessionId])%list |}) ;;;
        let gmail_ := {| gmail_auth := sessionOauth2Client |} in
        sessionToken_ <- on_auth_world
                           (storeSessionData authSessionId sessionOauth2Client gmail_
                              (ck_userId a) uuid now) ;;
        ret (AuthenticationCompleted sessionToken_
               (match store with
                | Some s =>
                    Some {| store_gmail := Some gmail_;
                            store_oauth2Client := Some sessionOauth2Client;
                            store_sessionId := Some authSessionId;
                            store_userId := ck_userId a;
                            store_mcpSessionId := store_mcpSessionId s;
                            store_authSessionId := store_authSessionId s |}
                | None => None
                end))
  end.

End GmailServerMore.

(** ** index.ts: batch processing *)

Module Batches.

(** [Array.prototype.slice(start, end)] for integer bounds. *)
Definition js_slice {A : Type} (start end_ : Z) (l : list A) : list A :=
  let len := Z.of_nat (length l) in
  let k := if (start <? 0)%Z then Z.max (len + start) 0 else Z.min start len in
  let final := if (end_ <? 0)%Z then Z.max (len + end_) 0 else Z.min end_ len in
  firstn (Z.to_nat (final - k)) (skipn (Z.to_nat k) l).

Section ProcessBatches.

Context {T U W : Type}.

(** The operation applied to a batch: it acts on the outside world (state
    [W]) and may throw. *)
Variable processFn : list T -> M W (list U).

Record Failure : Type := { item : T; error : string }.

Record BatchResult : Type := {
  successes : list U;
  failures : list Failure
}.

(** The inner loop: each item of a failed batch on its own. *)
Fixpoint retry_items (batch : list T) (acc : BatchResult) : M W BatchResult :=
  match batch with
  | [] => ret acc
  | item_ :: rest =>
      acc' <- try_catch
                (result <- processFn [item_] ;;
                 ret {| successes := (successes acc ++ result)%list;
                        failures := failures acc |})
                (fun itemError =>
                   ret {| successes := successes acc;
                          failures := (failures acc
                                       ++ [{| item := item_; error := itemError |}])%list |}) ;;
      retry_items rest acc'
  end.

(** The outer loop [for (let i = 0; i < items.length; i += batchSize)].  The
    loop need not end, so the model counts iterations: [None] means the loop
    is still running when the count is used up. *)
Fixpoint batches_loop (fuel : nat) (items : list T) (batchSize i : Z)
  (acc : BatchResult) : M W (option BatchResult) :=
  if (i <? Z.of_nat (length items))%Z then
    match fuel with
    | O => ret None
    | S fuel' =>
        let batch := js_slice i (i + batchSize) items in
        acc' <- try_catch
                  (results <- processFn batch ;;
                   ret {| successes := (successes acc ++ results)%list;
                          failures := failures acc |})
                  (fun _ => retry_items batch acc) ;;
        batches_loop fuel' items batchSize (i + batchSize) acc'
    end
  else ret (Some acc).

(** [processBatches] for an integer batch size, run for at most [fuel]
    iterations of the outer loop. *)
Definition processBatches (fuel : nat) (items : list T) (batchSize : Z)
  : M W (option BatchResult) :=
  batches_loop fuel items batchSize 0 {| successes := []; failures := [] |}.

End ProcessBatches.

(** [validatedArgs.batchSize || 50] of the two batch tools. *)
Definition effective_batchSize (batchSize : option Z) : Z :=
  match batchSize with
  | Some n => if (n =? 0)%Z then 50 else n
  | None => 50
  end.

(** [Promise.all(batch.map(async (x) => call(x)))], the [processFn] both batch
    tools pass.  [map] starts every call, in the order of the batch, and none
    is called off when another fails; the requests are taken to act in the
    order they are started.  The promise is rejected when one of the calls
    is; [processBatches] does not look at the error of a rejected batch, so
    which rejection wins does not matter to it. *)
Section PromiseAll.

Context {T U W : Type}.

Variable call : T -> M W U.

Fixpoint promise_all_map (batch : list T) : M W (list U) :=
  match batch with
  | [] => ret []
  | x :: rest =>
      fun w =>
        match call x w with
        | (Returned r, w1) =>
            match promise_all_map rest w1 with
            | (Returned rs, w2) => (Returned (r :: rs), w2)
            | (Thrown e, w2) => (Thrown e, w2)
            end
        | (Thrown e, w1) => (Thrown e, snd (promise_all_map rest w1))
        end
  end.

End PromiseAll.

(** One request of a batch tool for one message id, with the journal of the
    requests made so far as the state.  Whether the service accepts the
    request, and with what error it refuses, is the service's affair; the
    value is the [{ messageId, success: true }] of the tools. *)
Definition gmail_request (accepts : string -> bool) (reason : string -> string)
  (messageId : string) : M (list string) (string * bool) :=
  fun journal =>
    (if accepts messageId then Returned (messageId, true) else Thrown (reason messageId),
     (journal ++ [messageId])%list).

(** [batch_modify_emails] and [batch_delete_emails] from the call of
    [processBatches] on; [batchSize] is [validatedArgs.batchSize]. *)
Definition batch_tool (accepts : string -> bool) (reason : string -> string)
  (fuel : nat) (messageIds : list string) (batchSize : option Z)
  : M (list string) (option (@BatchResult string (string * bool))) :=
  processBatches (promise_all_map (gmail_request accepts reason)) fuel messageIds
    (effective_batchSize batchSize).

End Batches.

(** ** index.ts: message parts *)

Module Mime.

Record PartBody : Type := {
  attachmentId : option string;
  size : option Z;
  data : option string
}.

#[warnings="-register-all"]
Inductive GmailMessagePart : Type :=
| MessagePart (mimeType filename : option string) (body : option PartBody)
              (parts : option (list GmailMessagePart)).

Record EmailContent : Type := { text : string; html : string }.

Record EmailAttachment : Type := {
  att_id : string;
  att_filename : string;
  att_mimeType : string;
  att_size : Z
}.

Definition mime_is (m : option string) (s : string) : bool :=
  match m with Some m' => String.eqb m' s | None => false end.

Section Extract.

(** [Buffer.from(data, 'base64').toString('utf8')], a service of the
    platform. *)
Variable decode : string -> string.

(** What a part contributes by its own body. *)
Definition own_content (mimeType : option string) (body : option PartBody) : EmailContent :=
  match body with
  | Some b =>
      if truthy (data b) then
        let content := decode (or_else (data b) "") in
        if mime_is mimeType "text/plain" then {| text := content; html := "" |}
        else if mime_is mimeType "text/html" then {| text := ""; html := content |}
        else {| text := ""; html := "" |}
      else {| text := ""; html := "" |}
  | None => {| text := ""; html := "" |}
  end.

(** [extractEmailContent]. *)
Fixpoint extractEmailContent (messagePart : GmailMessagePart) : EmailContent :=
  match messagePart with
  | MessagePart mimeType _ body parts =>
      let own := own_content mimeType body in
      match parts with
      | Some ps =>
          (fix over (ps : list GmailMessagePart) (acc : EmailContent) : EmailContent :=
             match ps with
             | [] => acc
             | part :: rest =>
                 let sub := extractEmailContent part in
                 over rest {| text := text acc ++ text sub;
                              html := html acc ++ html sub |}
             end) ps own
      | None => own
      end
  end.

(** [text || html || ''] and the note of [read_email]. *)
Definition read_email_body (c : EmailContent) : string * string :=
  (if negb (String.eqb (text c) "") then text c
   else if negb (String.eqb (html c) "") then html c else "",
   if String.eqb (text c) "" && negb (String.eqb (html c) "")
   then "[Note: This email is HTML-formatted. Plain text version not available.]"
          ++ String (ascii_of_nat 10) (String (ascii_of_nat 10) "")
   else "").

End Extract.

(** The attachment a part stands for, if its body names one. *)
Definition own_attachment (mimeType filename : option string) (body : option PartBody)
  : list EmailAttachment :=
  match body with
  | Some b =>
      if truthy (attachmentId b) then
        let id := or_else (attachmentId b) "" in
        [ {| att_id := id;
             att_filename := or_else filename ("attachment-" ++ id);
             att_mimeType := or_else mimeType "application/octet-stream";
             att_size := match size b with Some n => n | None => 0 end |} ]
      else []
  | None => []
  end.

(** [processAttachmentParts] of [read_email]: the attachments pushed while
    walking the part. *)
Fixpoint processAttachmentParts (part : GmailMessagePart) : list EmailAttachment :=
  match part with
  | MessagePart mimeType filename body parts =>
      (own_attachment mimeType filename body
       ++ match parts with
          | Some ps =>
              (fix over (ps : list GmailMessagePart) : list EmailAttachment :=
                 match ps with
                 | [] => []
                 | subpart :: rest => (processAttachmentParts subpart ++ over rest)%list
                 end) ps
          | None => []
          end)%list
  end.

(** [findAttachment] of [download_attachment], for the wanted attachment id. *)
Fixpoint findAttachment (wanted : string) (part : GmailMessagePart) : option string :=
  match part with
  | MessagePart _ filename body parts =>
      if match body with
         | Some b => match attachmentId b with
                     | Some id => String.eqb id wanted
                     | None => false
                     end
         | None => false
         end
      then Some (or_else filename ("attachment-" ++ wanted))
      else
        match parts with
        | Some ps =>
            (fix over (ps : list GmailMessagePart) : option string :=
               match ps with
               | [] => None
               | subpart :: rest =>
                   match findAttachment wanted subpart with
                   | Some found => if String.eqb found "" then over rest else Some found
                   | None => over rest
                   end
               end) ps
        | None => None
        end
  end.

(** The file name [download_attachment] saves under when none is given. *)
Definition download_filename (wanted : string) (payload : GmailMessagePart) : string :=
  or_else (findAttachment wanted payload) ("attachment-" ++ wanted).

(** The parts of a message in the order the walks visit them. *)
Fixpoint preorder (part : GmailMessagePart) : list GmailMessagePart :=
  match part with
  | MessagePart _ _ _ parts =>
      part :: match parts with
              | Some ps =>
                  (fix over (ps : list GmailMessagePart) : list GmailMessagePart :=
                     match ps with
                     | [] => []
                     | subpart :: rest => (preorder subpart ++ over rest)%list
                     end) ps
              | None => []
              end
  end.

Definition part_mimeType (p : GmailMessagePart) : option string :=
  match p with MessagePart m _ _ _ => m end.
Definition part_filename (p : GmailMessagePart) : option string :=
  match p with MessagePart _ f _ _ => f end.
Definition part_body (p : GmailMessagePart) : option PartBody :=
  match p with MessagePart _ _ b _ => b end.

End Mime.

(** ** Further sample states *)

Module MoreScenarios.

Import GmailServer TokenScenarios GmailServerMore Mime.

Definition check_args_A : CheckArgs :=
  {| ck_userId := None; ck_storagePath := "/home/node/.gmail-mcp" |}.

(** The entry [get_auth_url] leaves for session [auth-A]. *)
Definition pending_A : PendingAuth :=
  {| pa_oauth2Client := client_of "A"; pa_listening := true; pa_userId := None;
     pa_callbackUrl := "http://localhost:3456/oauth2callback" |}.

(** Session [auth-A] has asked for an authorisation URL; the browser has not
    come back yet. *)
Definition awaiting_A : AuthState :=
  {| auth_world := initial_world plain_env;
     pendingAuthStore := [("auth-A", pending_A)];
     closed_servers := [] |}.

(** The same, after the callback has written the credentials file. *)
Definition consented_A : AuthState :=
  {| auth_world :=
       with_disk
         [ ("/home/node/.gmail-mcp/auth-A/credentials.json",
            Some (JsonTokens "access-A" "refresh-A")) ]
         ["/home/node/.gmail-mcp/auth-A"] (initial_world plain_env);
     pendingAuthStore := [("auth-A", pending_A)];
     closed_servers := [] |}.


(** A message with a plain-text body and one PDF attached. *)
Definition message_with_report : GmailMessagePart :=
  MessagePart (Some "multipart/mixed") (Some "") None
    (Some [ MessagePart (Some "text/plain") (Some "")
              (Some {| attachmentId := None; size := Some 12; data := Some "SGVsbG8=" |})
              None;
            MessagePart (Some "application/pdf") (Some "report.pdf")
              (Some {| attachmentId := Some "att-1"; size := Some 2048; data := None |})
              None ]).

End MoreScenarios.
(** * Properties *)

(** ** Maps *)

Module JsMapFacts.

Section Facts.
Context {V : Type}.
Implicit Types (m : JsMap.t V) (k : string) (v : V).

Lemma get_set_eq k v m : JsMap.get k (JsMap.set k v m) = Some v.
Proof.
  induction m as [|[k' v'] m IH]; simpl.
  - now rewrite String.eqb_refl.
  - destruct (String.eqb k k') eqn:E; simpl; rewrite ?String.eqb_refl, ?E; auto.
Qed.

Lemma get_set_neq k k' v m :
  k <> k' -> JsMap.get k' (JsMap.set k v m) = JsMap.get k' m.
Proof.
  intros Hne. induction m as [|[k0 v0] m IH]; simpl.
  - destruct (String.eqb k' k) eqn:E; auto.
    apply String.eqb_eq in E. congruence.
  - destruct (String.eqb k k0) eqn:E; simpl.
    + apply String.eqb_eq in E. subst k0.
      destruct (String.eqb k' k) eqn:E'; auto.
      apply String.eqb_eq in E'. congruence.
    + now rewrite IH.
Qed.

Lemma get_delete_eq k m : JsMap.get k (JsMap.delete k m) = None.
Proof.
  induction m as [|[k' v'] m IH]; simpl; auto.
  destruct (String.eqb k k') eqn:E; simpl; rewrite ?E; auto.
Qed.

Lemma get_delete_neq k k' m :
  k <> k' -> JsMap.get k' (JsMap.delete k m) = JsMap.get k' m.
Proof.
  intros Hne. induction m as [|[k0 v0] m IH]; simpl; auto.
  destruct (String.eqb k k0) eqn:E; simpl.
  - apply String.eqb_eq in E. subst k0.
    destruct (String.eqb k' k) eqn:E'; auto.
    apply String.eqb_eq in E'. congruence.
  - now rewrite IH.
Qed.

Lemma delete_absent k m : JsMap.get k m = None -> JsMap.delete k m = m.
Proof.
  induction m as [|[k' v'] m IH]; simpl; auto.
  destruct (String.eqb k k') eqn:E; [discriminate|].
  intros H. now rewrite IH.
Qed.

Lemma get_In k v m : JsMap.get k m = Some v -> In (k, v) m.
Proof.
  induction m as [|[k' v'] m IH]; simpl; [discriminate|].
  destruct (String.eqb k k') eqn:E.
  - apply String.eqb_eq in E. intros [= ->]. subst. now left.
  - intros H. right. auto.
Qed.

Lemma In_keys_get k m : In k (JsMap.keys m) -> exists v, JsMap.get k m = Some v.
Proof.
  induction m as [|[k' v'] m IH]; simpl; [tauto|].
  intros [->|H].
  - rewrite String.eqb_refl. eauto.
  - destruct (String.eqb k k'); eauto.
Qed.

Lemma In_get_wf k v m : JsMap.wf m -> In (k, v) m -> JsMap.get k m = Some v.
Proof.
  unfold JsMap.wf, JsMap.keys.
  induction m as [|[k' v'] m IH]; simpl; [tauto|].
  intros Hnd [H|H].
  - injection H as -> ->. now rewrite String.eqb_refl.
  - inversion Hnd as [|? ? Hnotin Hnd']; subst.
    destruct (String.eqb k k') eqn:E; auto.
    apply String.eqb_eq in E. subst k'.
    exfalso. apply Hnotin. now apply (in_map fst) in H.
Qed.

Lemma In_keys_set k k' v m :
  In k' (JsMap.keys (JsMap.set k v m)) <-> k' = k \/ In k' (JsMap.keys m).
Proof.
  induction m as [|[k0 v0] m IH]; simpl.
  - intuition.
  - destruct (String.eqb k k0) eqn:E; simpl.
    + apply String.eqb_eq in E. subst k0. intuition.
    + rewrite IH. intuition.
Qed.

Lemma In_keys_delete k k' m :
  In k' (JsMap.keys (JsMap.delete k m)) -> In k' (JsMap.keys m).
Proof.
  induction m as [|[k0 v0] m IH]; simpl; auto.
  destruct (String.eqb k k0); simpl; intuition.
Qed.

Lemma wf_empty : JsMap.wf (@JsMap.empty V).
Proof. constructor. Qed.

Lemma wf_set k v m : JsMap.wf m -> JsMap.wf (JsMap.set k v m).
Proof.
  unfold JsMap.wf. induction m as [|[k0 v0] m IH]; simpl; intros Hnd.
  - repeat constructor. intros [].
  - inversion Hnd as [|? ? Hnotin Hnd']; subst.
    destruct (String.eqb k k0) eqn:E; simpl.
    + apply String.eqb_eq in E. subst k0. now constructor.
    + constructor; [|now apply IH].
      intros Hin. apply In_keys_set in Hin. destruct Hin as [->|Hin].
      * now rewrite String.eqb_refl in E.
      * contradiction.
Qed.

Lemma wf_delete k m : JsMap.wf m -> JsMap.wf (JsMap.delete k m).
Proof.
  unfold JsMap.wf. induction m as [|[k0 v0] m IH]; simpl; intros Hnd; auto.
  inversion Hnd as [|? ? Hnotin Hnd']; subst.
  destruct (String.eqb k k0); simpl; auto.
  constructor; auto.
  intros Hin. apply Hnotin. now apply In_keys_delete in Hin.
Qed.

End Facts.

End JsMapFacts.

(** ** The monad *)

Ltac run_M :=
  unfold bind, ret, throw, get_state, modify in *; simpl in *.

(** ** Session registry *)

Module SessionTransportFacts.

Import SessionTransport Scenarios.

Lemma truthy_some (s : string) : s <> "" -> truthy (Some s) = true.
Proof.
  intros H. simpl. destruct (String.eqb s "") eqn:E; auto.
  apply String.eqb_eq in E. contradiction.
Qed.

Lemma getOrCreateSession_create sid cfg caps th uuid now m :
  truthy sid = false ->
  getOrCreateSession sid true cfg caps th uuid now m =
    (Returned (new_session cfg caps th uuid now, true),
     {| sessions := JsMap.set uuid (new_session cfg caps th uuid now) (sessions m);
        trace := (trace m ++ [Connected uuid])%list |}).
Proof.
  intros H. unfold getOrCreateSession. rewrite H. reflexivity.
Qed.

Lemma getOrCreateSession_existing s old isInit cfg caps th uuid now m :
  s <> "" -> JsMap.get s (sessions m) = Some old ->
  getOrCreateSession (Some s) isInit cfg caps th uuid now m =
    (Returned (touch now old, false),
     {| sessions := JsMap.set s (touch now old) (sessions m); trace := trace m |}).
Proof.
  intros Hs Hget. unfold getOrCreateSession.
  rewrite (truthy_some s Hs). simpl.
  run_M. unfold JsMap.has. rewrite Hget.
  destruct (String.eqb s "") eqn:E.
  - apply String.eqb_eq in E. contradiction.
  - reflexivity.
Qed.

Lemma getOrCreateSession_invalid sid isInit cfg caps th uuid now m :
  (truthy sid = true /\ JsMap.get (or_else sid "") (sessions m) = None)
  \/ (truthy sid = false /\ isInit = false) ->
  getOrCreateSession sid isInit cfg caps th uuid now m =
    (Thrown ("Invalid session ID: " ++ or_else sid "undefined"), m).
Proof.
  intros [[Ht Hget]|[Ht Hi]]; unfold getOrCreateSession; rewrite Ht; simpl.
  - destruct sid as [s|]; [|discriminate]. simpl in Ht, Hget.
    destruct (String.eqb s "") eqn:E; [discriminate|].
    run_M. unfold JsMap.has. rewrite Hget. reflexivity.
  - subst isInit. destruct sid as [s|]; run_M; auto.
    destruct (String.eqb s "") eqn:E; [|discriminate]. reflexivity.
Qed.

(** C3.  Resolve-or-create.  "Absent" is the code's [!sessionId]: no id, or
    the empty string.  (1) An absent id on an initialization request creates a
    session under the id the generator returned, registers it and returns it
    marked new, leaving every other entry alone.  (2) A present, registered id
    returns the existing record with [lastActivity] set to the clock and
    [requestCount] one higher, and the registry holds that updated record.
    (3) A present but unknown id, or an absent id on a request that is not an
    initialization, throws "Invalid session ID" and leaves the manager, and so
    the registry table, exactly as it was. *)
Theorem getOrCreateSession_resolves_or_creates :
  forall (sid : option string) (isInit : bool) (cfg : ServerConfig) (caps : string)
         (th : list (Schema * Handler)) (uuid : string) (now : Z)
         (m : SessionAwareTransportManager),
    (truthy sid = false -> isInit = true ->
       exists sd m',
         getOrCreateSession sid isInit cfg caps th uuid now m = (Returned (sd, true), m')
         /\ sessionId sd = uuid
         /\ authSessionId sd = "auth-" ++ uuid
         /\ requestCount sd = 0 /\ createdAt sd = now /\ lastActivity sd = now
         /\ JsMap.get uuid (sessions m') = Some sd
         /\ (forall k, k <> uuid -> JsMap.get k (sessions m') = JsMap.get k (sessions m)))
    /\ (forall s old,
          sid = Some s -> s <> "" -> JsMap.get s (sessions m) = Some old ->
          exists sd m',
            getOrCreateSession sid isInit cfg caps th uuid now m = (Returned (sd, false), m')
            /\ lastActivity sd = now
            /\ requestCount sd = requestCount old + 1
            /\ sessionId sd = sessionId old /\ authSessionId sd = authSessionId old
            /\ createdAt sd = createdAt old
            /\ transport sd = transport old /\ mcpServer sd = mcpServer old
            /\ JsMap.get s (sessions m') = Some sd
            /\ (forall k, k <> s -> JsMap.get k (sessions m') = JsMap.get k (sessions m)))
    /\ ((truthy sid = true /\ JsMap.get (or_else sid "") (sessions m) = None)
        \/ (truthy sid = false /\ isInit = false) ->
        exists e,
          getOrCreateSession sid isInit cfg caps th uuid now m = (Thrown e, m)
          /\ e = "Invalid session ID: " ++ or_else sid "undefined").
Proof.
  intros sid isInit cfg caps th uuid now m. repeat split.
  - intros Ht ->. eexists _, _. split; [apply getOrCreateSession_create; exact Ht|].
    simpl. repeat split; auto.
    + apply JsMapFacts.get_set_eq.
    + intros k Hk. apply JsMapFacts.get_set_neq. congruence.
  - intros s old -> Hs Hget. eexists _, _.
    split; [apply getOrCreateSession_existing; eassumption|].
    simpl. repeat split; auto.
    + apply JsMapFacts.get_set_eq.
    + intros k Hk. apply JsMapFacts.get_set_neq. congruence.
  - intros H. eexists. split; [apply getOrCreateSession_invalid; exact H|reflexivity].
Qed.

Lemma getOrCreateSession_resolves_or_creates_witness :
  (exists sd m',
     getOrCreateSession None true demo_cfg "tools" [] "s3" 7 demo_manager
       = (Returned (sd, true), m')
     /\ JsMap.get "s3" (sessions m') = Some sd)
  /\ (exists sd m',
        getOrCreateSession (Some "s1") false demo_cfg "tools" [] "s3" 7 demo_manager
          = (Returned (sd, false), m')
        /\ requestCount sd = 4 /\ lastActivity sd = 7)
  /\ (exists e,
        getOrCreateSession (Some "zz") false demo_cfg "tools" [] "s3" 7 demo_manager
          = (Thrown e, demo_manager)).
Proof.
  pose proof (getOrCreateSession_resolves_or_creates
                None true demo_cfg "tools" [] "s3" 7 demo_manager) as [H1 _].
  pose proof (getOrCreateSession_resolves_or_creates
                (Some "s1") false demo_cfg "tools" [] "s3" 7 demo_manager) as [_ [H2 _]].
  pose proof (getOrCreateSession_resolves_or_creates
                (Some "zz") false demo_cfg "tools" [] "s3" 7 demo_manager) as [_ [_ H3]].
  split; [|split].
  - destruct (H1 eq_refl eq_refl) as (sd & m' & E & _ & _ & _ & _ & _ & G & _).
    exists sd, m'. split; assumption.
  - destruct (H2 "s1" (demo_session "s1" 1000) eq_refl) as (sd & m' & E & L & R & _).
    + discriminate.
    + reflexivity.
    + exists sd, m'. repeat split; [exact E|exact R|exact L].
  - destruct H3 as (e & E & _).
    + left. split; reflexivity.
    + exists e. exact E.
Defined.

(** *** Close *)

Lemma closeSession_shape (sid : string) (m : SessionAwareTransportManager) :
  closeSession sid m =
    match JsMap.get sid (sessions m) with
    | Some sd =>
        (Returned true,
         {| sessions := JsMap.delete sid (sessions m);
            trace := (trace m ++ [BaseClose (tr_sessionId (transport sd))])%list |})
    | None => (Returned false, m)
    end.
Proof.
  unfold closeSession, close, emit, set_sessions. run_M.
  destruct (JsMap.get sid (sessions m)); reflexivity.
Qed.

(** C8.  [closeSession] returns whether a record existed under the id; it
    closes that record's transport and removes the record; a second close of
    the same id returns [false] and changes nothing. *)
Theorem closeSession_removes_and_is_idempotent :
  forall (sid : string) (m : SessionAwareTransportManager),
    fst (closeSession sid m) = Returned (JsMap.has sid (sessions m))
    /\ sessions (snd (closeSession sid m)) = JsMap.delete sid (sessions m)
    /\ JsMap.get sid (sessions (snd (closeSession sid m))) = None
    /\ trace (snd (closeSession sid m)) =
         match JsMap.get sid (sessions m) with
         | Some sd => (trace m ++ [BaseClose (tr_sessionId (transport sd))])%list
         | None => trace m
         end
    /\ closeSession sid (snd (closeSession sid m))
         = (Returned false, snd (closeSession sid m)).
Proof.
  intros sid m.
  assert (Hgone : forall m0, JsMap.get sid (sessions m0) = None ->
                             closeSession sid m0 = (Returned false, m0)).
  { intros m0 H0. rewrite closeSession_shape. now rewrite H0. }
  rewrite closeSession_shape. unfold JsMap.has.
  destruct (JsMap.get sid (sessions m)) as [sd|] eqn:G; simpl.
  - repeat split; auto using JsMapFacts.get_delete_eq.
    apply Hgone. simpl. apply JsMapFacts.get_delete_eq.
  - repeat split; auto.
    now rewrite JsMapFacts.delete_absent.
Qed.

(** *** Idle sweep *)

Lemma cleanup_loop_spec (now : Z) :
  forall (es : list (string * SessionTransportData)) (c : Z) (m : SessionAwareTransportManager),
    NoDup (map fst es) ->
    (forall k sd, In (k, sd) es -> JsMap.get k (sessions m) = Some sd) ->
    exists c' m' closed,
      cleanup_loop now es c m = (Returned c', m')
      /\ (forall k, JsMap.get k (sessions m') =
            if existsb (fun e => String.eqb (fst e) k && idle now (snd e)) es
            then None else JsMap.get k (sessions m))
      /\ trace m' = (trace m ++ closed)%list
      /\ (forall k sd, In (k, sd) es -> idle now sd = true ->
            In (BaseClose (tr_sessionId (transport sd))) closed)
      /\ (forall e, In e closed ->
            exists k sd, In (k, sd) es /\ idle now sd = true
                         /\ e = BaseClose (tr_sessionId (transport sd))).
Proof.
  induction es as [|[k0 sd0] es IH]; intros c m Hnd Hlive.
  - exists c, m, []. simpl. rewrite app_nil_r.
    split; [reflexivity|]. split; [reflexivity|]. split; [reflexivity|].
    split; [intros k sd []|intros e []].
  - inversion Hnd as [|? ? Hfresh Hnd']; subst.
    simpl cleanup_loop. fold (idle now sd0).
    destruct (idle now sd0) eqn:Hidle.
    + unfold bind at 1. rewrite closeSession_shape.
      rewrite (Hlive k0 sd0 (or_introl eq_refl)).
      set (m1 := {| sessions := JsMap.delete k0 (sessions m);
                    trace := (trace m ++ [BaseClose (tr_sessionId (transport sd0))])%list |}).
      destruct (IH (c + 1) m1 Hnd') as (c' & m' & closed & Hrun & Hget & Htr & Hin & Honly).
      { intros k sd Hk. simpl.
        rewrite JsMapFacts.get_delete_neq; [apply Hlive; now right|].
        intros ->. apply Hfresh. now apply (in_map fst) in Hk. }
      exists c', m', (BaseClose (tr_sessionId (transport sd0)) :: closed).
      split; [exact Hrun|]. split; [|split; [|split]].
      * intros k. rewrite Hget. simpl. rewrite Hidle.
        destruct (String.eqb k0 k) eqn:E; simpl.
        -- apply String.eqb_eq in E. subst k.
           rewrite JsMapFacts.get_delete_eq. now destruct (existsb _ es).
        -- rewrite JsMapFacts.get_delete_neq; auto.
           intros ->. now rewrite String.eqb_refl in E.
      * rewrite Htr. simpl. now rewrite <- app_assoc.
      * intros k sd [Heq|Hk] Hi.
        -- injection Heq as <- <-. now left.
        -- right. eauto.
      * intros e [<-|He].
        -- exists k0, sd0. repeat split; auto. now left.
        -- destruct (Honly e He) as (k & sd & Hk & Hi & ->).
           exists k, sd. repeat split; auto. now right.
    + destruct (IH c m Hnd') as (c' & m' & closed & Hrun & Hget & Htr & Hin & Honly).
      { intros k sd Hk. apply Hlive. now right. }
      exists c', m', closed. split; [exact Hrun|]. split; [|split; [|split]]; auto.
      * intros k. rewrite Hget. simpl. rewrite Hidle.
        now rewrite andb_false_r.
      * intros k sd [Heq|Hk] Hi; [|eauto].
        injection Heq as <- <-. congruence.
      * intros e He. destruct (Honly e He) as (k & sd & Hk & Hi & ->).
        exists k, sd. repeat split; auto. now right.
Qed.

(** C7.  One tick of the sweeper, run to completion at clock [now] on a table
    that holds each id once.  The tick closes transports of idle sessions and
    nothing else.  Every session idle for more than one hour has had its
    transport closed, is gone from the table and from the listing of
    [getSessionStats]; every session idle for less than one hour is still in
    the table, unchanged, and in the listing.  The listing may be taken at any
    clock [now']. *)
Theorem cleanup_evicts_idle_keeps_active :
  forall (now now' : Z) (m : SessionAwareTransportManager),
    JsMap.wf (sessions m) ->
    fst (cleanupInactiveSessions now m) = Returned tt
    /\ exists closed,
         trace (snd (cleanupInactiveSessions now m)) = (trace m ++ closed)%list
         /\ (forall e, In e closed ->
               exists sid sd,
                 JsMap.get sid (sessions m) = Some sd
                 /\ now - lastActivity sd > maxAge
                 /\ e = BaseClose (tr_sessionId (transport sd)))
         /\ forall sid sd,
              JsMap.get sid (sessions m) = Some sd ->
              (now - lastActivity sd > maxAge ->
                 In (BaseClose (tr_sessionId (transport sd))) closed
                 /\ JsMap.get sid (sessions (snd (cleanupInactiveSessions now m))) = None
                 /\ ~ In sid (map sum_sessionId
                                (stats_sessions
                                   (getSessionStats now'
                                      (snd (cleanupInactiveSessions now m))))))
              /\ (now - lastActivity sd < maxAge ->
                    JsMap.get sid (sessions (snd (cleanupInactiveSessions now m))) = Some sd
                    /\ In (summary now' (sid, sd))
                          (stats_sessions
                             (getSessionStats now'
                                (snd (cleanupInactiveSessions now m))))).
Proof.
  intros now now' m Hwf.
  destruct (cleanup_loop_spec now (JsMap.entries (sessions m)) 0 m)
    as (c' & m' & closed & Hrun & Hget & Htr & Hclosed & Honly).
  { exact Hwf. }
  { intros k sd Hin. now apply JsMapFacts.In_get_wf. }
  assert (Htick : cleanupInactiveSessions now m = (Returned tt, m')).
  { unfold cleanupInactiveSessions. run_M. now rewrite Hrun. }
  rewrite Htick. simpl. split; [reflexivity|].
  exists closed. split; [exact Htr|]. split.
  { intros e He. destruct (Honly e He) as (k & sd & Hk & Hi & ->).
    exists k, sd. split; [now apply JsMapFacts.In_get_wf|].
    split; [|reflexivity]. unfold idle in Hi. lia. }
  intros sid sd Hsid. split.
  - intros Hold.
    assert (Hidle : idle now sd = true) by (unfold idle; lia).
    assert (Hnone : JsMap.get sid (sessions m') = None).
    { rewrite Hget.
      replace (existsb _ _) with true; [reflexivity|].
      symmetry. apply existsb_exists. exists (sid, sd). simpl.
      split; [now apply JsMapFacts.get_In|].
      now rewrite String.eqb_refl. }
    split; [|split]; auto.
    + apply (Hclosed sid sd); auto. now apply JsMapFacts.get_In.
    + intros Hin. unfold JsMap.entries in Hin. rewrite map_map in Hin. simpl in Hin.
      apply (JsMapFacts.In_keys_get sid (sessions m')) in Hin.
      destruct Hin as [v Hv]. congruence.
  - intros Hyoung.
    assert (Hidle : idle now sd = false) by (unfold idle; lia).
    assert (Hsome : JsMap.get sid (sessions m') = Some sd).
    { rewrite Hget.
      destruct (existsb _ _) eqn:E; [|exact Hsid].
      apply existsb_exists in E. destruct E as ([k v] & Hin & Hf). simpl in Hf.
      apply andb_prop in Hf. destruct Hf as [Hk Hv].
      apply String.eqb_eq in Hk. subst k.
      apply (JsMapFacts.In_get_wf sid v (sessions m) Hwf) in Hin.
      congruence. }
    split; [exact Hsome|].
    apply (in_map (summary now')). now apply JsMapFacts.get_In.
Qed.

Lemma cleanup_evicts_idle_keeps_active_witness :
  JsMap.get "s1" (sessions (snd (cleanupInactiveSessions 4000000 demo_manager))) = None
  /\ JsMap.get "s2" (sessions (snd (cleanupInactiveSessions 4000000 demo_manager)))
       = Some (demo_session "s2" 4000000).
Proof.
  assert (Hwf : JsMap.wf (sessions demo_manager)).
  { unfold JsMap.wf. simpl. repeat constructor; simpl; intuition discriminate. }
  destruct (cleanup_evicts_idle_keeps_active 4000000 4000001 demo_manager Hwf)
    as (_ & closed & _ & _ & H).
  split.
  - destruct (H "s1" (demo_session "s1" 1000) eq_refl) as [Hold _].
    apply Hold. unfold maxAge. simpl. lia.
  - destruct (H "s2" (demo_session "s2" 4000000) eq_refl) as [_ Hyoung].
    apply Hyoung. unfold maxAge. simpl. lia.
Defined.

(** *** The table stays a map *)

(** Every operation of the manager keeps each id at most once in the table,
    so the tables the sweeper meets are the ones built from the empty table. *)
Lemma getOrCreateSession_keeps_wf sid isInit cfg caps th uuid now m :
  JsMap.wf (sessions m) ->
  JsMap.wf (sessions (snd (getOrCreateSession sid isInit cfg caps th uuid now m))).
Proof.
  intros Hwf. unfold getOrCreateSession.
  destruct (negb (truthy sid) && isInit).
  - simpl. now apply JsMapFacts.wf_set.
  - run_M. destruct sid as [s|]; simpl; auto.
    destruct (negb (String.eqb s "") && JsMap.has s (sessions m)); simpl; auto.
    destruct (JsMap.get s (sessions m)); simpl; auto.
    now apply JsMapFacts.wf_set.
Qed.

Lemma closeSession_keeps_wf sid m :
  JsMap.wf (sessions m) -> JsMap.wf (sessions (snd (closeSession sid m))).
Proof.
  intros Hwf. rewrite closeSession_shape.
  destruct (JsMap.get sid (sessions m)); simpl; auto.
  now apply JsMapFacts.wf_delete.
Qed.

Lemma cleanup_loop_keeps_wf now es :
  forall c m, JsMap.wf (sessions m) ->
              JsMap.wf (sessions (snd (cleanup_loop now es c m))).
Proof.
  induction es as [|[k sd] es IH]; intros c m Hwf; simpl; auto.
  destruct (now - lastActivity sd >? maxAge)%Z; auto.
  unfold bind at 1.
  pose proof (closeSession_keeps_wf k m Hwf) as Hc.
  destruct (closeSession k m) as [[b|e] m1]; simpl in *; auto.
Qed.

Lemma cleanupInactiveSessions_keeps_wf now m :
  JsMap.wf (sessions m) ->
  JsMap.wf (sessions (snd (cleanupInactiveSessions now m))).
Proof.
  intros Hwf. unfold cleanupInactiveSessions. run_M.
  pose proof (cleanup_loop_keeps_wf now (JsMap.entries (sessions m)) 0 m Hwf) as H.
  destruct (cleanup_loop now (JsMap.entries (sessions m)) 0 m) as [[c|e] m']; auto.
Qed.

(** *** Outbound path *)

(** C1, as the code has it.  With no ambient context, [send] raises nothing:
    it logs a warning that names the transport's session and hands the message
    to the base transport of that same session with no context established.
    With a context, the message goes to the base transport under exactly that
    context.  In neither case is a default or another session's context put in
    its place. *)
Theorem send_without_context_warns_and_forwards :
  forall (t : SessionAwareStreamableTransport) (message : string)
         (m : SessionAwareTransportManager),
    send t message None m =
      (Returned tt,
       {| sessions := sessions m;
          trace := (trace m ++
                    [ConsoleWarn ("No context available when sending response for session "
                                    ++ tr_sessionId t);
                     BaseSend (tr_sessionId t) message None])%list |})
    /\ forall c : RequestContext,
         send t message (Some c) m =
           (Returned tt,
            {| sessions := sessions m;
               trace := (trace m ++ [BaseSend (tr_sessionId t) message (Some c)])%list |}).
Proof.
  intros t message m. unfold send, emit. run_M. split.
  - now rewrite <- app_assoc.
  - reflexivity.
Qed.

(** C1 as stated fails: an emission attempt without ambient context returns
    normally and the response goes out on the wire. *)
Lemma send_without_context_does_not_throw :
  fst (send demo_transport "response" None demo_manager) = Returned tt
  /\ In (BaseSend "s1" "response" None)
        (trace (snd (send demo_transport "response" None demo_manager))).
Proof.
  split; [reflexivity|]. simpl. right. now left.
Qed.

(** The inbound path, by contrast, refuses to run without a context. *)
Lemma handleRequest_requires_context
  (t : SessionAwareStreamableTransport) (m : SessionAwareTransportManager) :
  handleRequest t None m =
    (Thrown ("No request context available for session " ++ tr_sessionId t), m).
Proof. reflexivity. Qed.

End SessionTransportFacts.

(** ** Token registry *)

Module GmailServerFacts.

Import GmailServer TokenScenarios.

#[local] Arguments generateSessionToken : simpl never.

Lemma token_differs_same (token : string) : token_differs (Some token) token = false.
Proof. simpl. now rewrite String.eqb_refl. Qed.

Lemma token_differs_false (stored : option string) (token : string) :
  token_differs stored token = false <-> stored = Some token.
Proof.
  destruct stored as [t|]; simpl; split; try discriminate.
  - destruct (String.eqb t token) eqn:E; [|discriminate].
    apply String.eqb_eq in E. now subst.
  - intros [= ->]. now rewrite String.eqb_refl.
Qed.

Lemma eqb_empty_false (s : string) : s <> "" -> String.eqb s "" = false.
Proof.
  intros H. destruct (String.eqb s "") eqn:E; auto.
  apply String.eqb_eq in E. contradiction.
Qed.

Section Validate.
Variables (token : string) (now : Z) (w : World).

Lemma validate_unknown :
  JsMap.get token (tokenToSessionMap w) = None ->
  validateSessionToken token now w = (Returned None, w).
Proof. intros H. unfold validateSessionToken. run_M. now rewrite H. Qed.

Lemma validate_falsy_session :
  JsMap.get token (tokenToSessionMap w) = Some "" ->
  validateSessionToken token now w = (Returned None, w).
Proof. intros H. unfold validateSessionToken. run_M. now rewrite H. Qed.

Lemma validate_no_record (sid : string) :
  JsMap.get token (tokenToSessionMap w) = Some sid ->
  JsMap.get sid (sessionStore w) = None ->
  validateSessionToken token now w = (Returned None, w).
Proof.
  intros H1 H2. unfold validateSessionToken. run_M. rewrite H1, H2.
  now destruct (String.eqb sid "").
Qed.

Lemma validate_mismatch (sid : string) (sd : SessionData) :
  JsMap.get token (tokenToSessionMap w) = Some sid ->
  JsMap.get sid (sessionStore w) = Some sd ->
  sessionToken sd <> Some token ->
  validateSessionToken token now w = (Returned None, w).
Proof.
  intros H1 H2 H3. unfold validateSessionToken. run_M. rewrite H1, H2.
  destruct (String.eqb sid ""); auto.
  destruct (token_differs (sessionToken sd) token) eqn:E; auto.
  apply token_differs_false in E. contradiction.
Qed.

Lemma validate_in_time (sid : string) (sd : SessionData) :
  JsMap.get token (tokenToSessionMap w) = Some sid -> sid <> "" ->
  JsMap.get sid (sessionStore w) = Some sd ->
  sessionToken sd = Some token ->
  now - created_or_zero (tokenCreatedAt sd) <= maxAge ->
  validateSessionToken token now w = (Returned (Some (sid, sd)), w).
Proof.
  intros H1 Hs H2 H3 H4. unfold validateSessionToken. run_M.
  rewrite H1, H2, (eqb_empty_false sid Hs), H3, token_differs_same.
  destruct (Z.gtb_spec (now - created_or_zero (tokenCreatedAt sd)) maxAge);
    [lia|reflexivity].
Qed.

Lemma validate_expired (sid : string) (sd : SessionData) :
  JsMap.get token (tokenToSessionMap w) = Some sid -> sid <> "" ->
  JsMap.get sid (sessionStore w) = Some sd ->
  sessionToken sd = Some token ->
  now - created_or_zero (tokenCreatedAt sd) > maxAge ->
  validateSessionToken token now w =
    (Returned None,
     with_registries (JsMap.delete sid (sessionStore w))
                     (JsMap.delete token (tokenToSessionMap w)) w).
Proof.
  intros H1 Hs H2 H3 H4. unfold validateSessionToken. run_M.
  rewrite H1, H2, (eqb_empty_false sid Hs), H3, token_differs_same.
  destruct (Z.gtb_spec (now - created_or_zero (tokenCreatedAt sd)) maxAge);
    [reflexivity|lia].
Qed.

End Validate.

Lemma bound_to_functional token w sid sd sid' sd' :
  bound_to token w sid sd -> bound_to token w sid' sd' -> sid = sid' /\ sd = sd'.
Proof.
  intros (H1 & _ & H2 & _) (H1' & _ & H2' & _).
  assert (sid = sid') by congruence. subst sid'. split; congruence.
Qed.

(** Every run of the validation falls in one of three classes. *)
Lemma validate_cases (token : string) (now : Z) (w : World) :
  (validateSessionToken token now w = (Returned None, w)
   /\ forall sid sd, ~ bound_to token w sid sd)
  \/ (exists sid sd,
        bound_to token w sid sd
        /\ ((token_age now sd <= maxAge
             /\ validateSessionToken token now w = (Returned (Some (sid, sd)), w))
            \/ (token_age now sd > maxAge
                /\ validateSessionToken token now w =
                     (Returned None,
                      with_registries (JsMap.delete sid (sessionStore w))
                                      (JsMap.delete token (tokenToSessionMap w)) w)))).
Proof.
  destruct (JsMap.get token (tokenToSessionMap w)) as [sid|] eqn:Ht.
  2:{ left. split; [now apply validate_unknown|].
      intros sid sd (H & _). congruence. }
  destruct (String.eqb sid "") eqn:Hs.
  { apply String.eqb_eq in Hs. subst sid.
    left. split; [now apply validate_falsy_session|].
    intros sid sd (H & Hne & _). congruence. }
  assert (Hne : sid <> "") by (intros ->; discriminate).
  destruct (JsMap.get sid (sessionStore w)) as [sd|] eqn:Hr.
  2:{ left. split; [now apply (validate_no_record token now w sid)|].
      intros sid' sd' (H & _ & H' & _). congruence. }
  destruct (token_differs (sessionToken sd) token) eqn:Hd.
  { left. assert (Hneq : sessionToken sd <> Some token).
    { intros E. apply token_differs_false in E. congruence. }
    split; [now apply (validate_mismatch token now w sid sd)|].
    intros sid' sd' (H & _ & H' & H''). congruence. }
  apply token_differs_false in Hd.
  right. exists sid, sd. split; [repeat split; auto|].
  destruct (Z_le_gt_dec (token_age now sd) maxAge) as [Hle|Hgt].
  - left. split; [exact Hle|]. apply validate_in_time; auto.
  - right. split; [exact Hgt|]. apply (validate_expired token now w sid sd); auto.
Qed.

(** C2, as the code has it.  Validation never throws.  It succeeds exactly
    when (a) the token is a key of the token table, mapped to a non-empty
    session id, (b) the record of that session exists and its stored token is
    the presented one, and (c) the age of the token is at most 24 hours.  When
    (a) and (b) hold and the age exceeds 24 hours, the token mapping and the
    session record are deleted and not-ok is returned.  In every other case
    both registries are left as they were. *)
Theorem validateSessionToken_checks_and_cleanup :
  forall (token : string) (now : Z) (w : World),
    (exists r, fst (validateSessionToken token now w) = Returned r)
    /\ (forall sid sd,
          fst (validateSessionToken token now w) = Returned (Some (sid, sd))
          <-> bound_to token w sid sd /\ token_age now sd <= maxAge)
    /\ (forall sid sd,
          bound_to token w sid sd -> token_age now sd > maxAge ->
          fst (validateSessionToken token now w) = Returned None
          /\ tokenToSessionMap (snd (validateSessionToken token now w))
               = JsMap.delete token (tokenToSessionMap w)
          /\ sessionStore (snd (validateSessionToken token now w))
               = JsMap.delete sid (sessionStore w)
          /\ JsMap.get token (tokenToSessionMap (snd (validateSessionToken token now w))) = None
          /\ JsMap.get sid (sessionStore (snd (validateSessionToken token now w))) = None)
    /\ ((forall sid sd, ~ (bound_to token w sid sd /\ token_age now sd > maxAge)) ->
        snd (validateSessionToken token now w) = w).
Proof.
  intros token now w.
  destruct (validate_cases token now w)
    as [[E Hnone]|(sid0 & sd0 & Hb & [[Hle E]|[Hgt E]])]; rewrite E; simpl.
  - split; [eauto|]. split; [|split].
    + intros sid sd. split; [discriminate|]. intros [Hb _]. now apply Hnone in Hb.
    + intros sid sd Hb. now apply Hnone in Hb.
    + reflexivity.
  - split; [eauto|]. split; [|split].
    + intros sid sd. split.
      * intros [= <- <-]. now split.
      * intros [Hb' _]. destruct (bound_to_functional _ _ _ _ _ _ Hb Hb'). now subst.
    + intros sid sd Hb' Hgt.
      destruct (bound_to_functional _ _ _ _ _ _ Hb Hb'). subst. lia.
    + reflexivity.
  - split; [eauto|]. split; [|split].
    + intros sid sd. split; [discriminate|]. intros [Hb' Hle].
      destruct (bound_to_functional _ _ _ _ _ _ Hb Hb'). subst. lia.
    + intros sid sd Hb' _.
      destruct (bound_to_functional _ _ _ _ _ _ Hb Hb'). subst.
      repeat split; auto using JsMapFacts.get_delete_eq.
    + intros Hno. exfalso. apply (Hno sid0 sd0). now split.
Qed.

Lemma validateSessionToken_checks_and_cleanup_witness :
  fst (validateSessionToken first_token (1000 + day + 1) issued_once) = Returned None
  /\ JsMap.get first_token
       (tokenToSessionMap (snd (validateSessionToken first_token (1000 + day + 1) issued_once)))
     = None
  /\ JsMap.get "auth-A"
       (sessionStore (snd (validateSessionToken first_token (1000 + day + 1) issued_once)))
     = None.
Proof.
  destruct (validateSessionToken_checks_and_cleanup first_token (1000 + day + 1) issued_once)
    as (_ & _ & Hexp & _).
  destruct (Hexp "auth-A"
              {| oauth2Client := Some (client_of "A"); gmail := Some (gmail_of "A");
                 userId := None; sessionToken := Some first_token;
                 tokenCreatedAt := Some 1000 |})
    as (H1 & _ & _ & H2 & H3).
  - repeat split; try reflexivity. discriminate.
  - vm_compute. reflexivity.
  - repeat split; assumption.
Defined.

(** C2 as stated fails twice over.  After a reissue the old token fails
    validation, yet its mapping and the session record both stay; and a token
    whose age is exactly 24 hours, not less, still validates. *)
Lemma validation_failure_without_cleanup :
  (fst (validateSessionToken first_token 3000 issued_twice) = Returned None
   /\ JsMap.get first_token
        (tokenToSessionMap (snd (validateSessionToken first_token 3000 issued_twice)))
      = Some "auth-A"
   /\ JsMap.has "auth-A"
        (sessionStore (snd (validateSessionToken first_token 3000 issued_twice))) = true)
  /\ (JsMap.has first_token (tokenToSessionMap issued_once) = true
      /\ (1000 + day) - 1000 = 24 * 60 * 60 * 1000
      /\ exists sd,
           JsMap.get "auth-A" (sessionStore issued_once) = Some sd
           /\ tokenCreatedAt sd = Some 1000
           /\ fst (validateSessionToken first_token (1000 + day) issued_once)
                = Returned (Some ("auth-A", sd))).
Proof.
  split.
  - vm_compute. repeat split; reflexivity.
  - split; [reflexivity|]. split; [reflexivity|].
    eexists. split; [reflexivity|]. split; reflexivity.
Qed.

(** *** Issue, validate, reissue *)

Lemma storeSessionData_shape x client g uid uuid t0 w :
  storeSessionData x client g uid uuid t0 w =
    (Returned (generateSessionToken uuid t0),
     with_registries
       (JsMap.set x (issued_record client g uid (generateSessionToken uuid t0) t0)
                  (sessionStore w))
       (JsMap.set (generateSessionToken uuid t0) x (tokenToSessionMap w)) w).
Proof. reflexivity. Qed.

Lemma issued_bound x client g uid uuid t0 w :
  x <> "" ->
  bound_to (generateSessionToken uuid t0)
           (snd (storeSessionData x client g uid uuid t0 w)) x
           (issued_record client g uid (generateSessionToken uuid t0) t0).
Proof.
  intros Hx. rewrite storeSessionData_shape. simpl.
  split; [apply JsMapFacts.get_set_eq|].
  split; [exact Hx|].
  split; [apply JsMapFacts.get_set_eq|reflexivity].
Qed.

(** C5.  Token lifecycle for a (non-empty) session identity [x].  The token
    returned by issuing at clock [t0] validates at [t0], at every clock
    strictly before [t0 + 24h], in particular at [t0 + 23h59m], each time
    leaving the registries untouched; at [t0 + 24h01m] validation fails, the
    token is no longer a key of the token table, and any retry fails again
    without further change. *)
Theorem issued_token_lifecycle :
  forall (x : string) (client : OAuth2Client) (g : Gmail) (uid : option string)
         (uuid : string) (t0 : Z) (w : World),
    x <> "" ->
    exists tok w1 sd,
      storeSessionData x client g uid uuid t0 w = (Returned tok, w1)
      /\ tokenCreatedAt sd = Some t0
      /\ validateSessionToken tok t0 w1 = (Returned (Some (x, sd)), w1)
      /\ (forall t, t < t0 + 24 * 60 * 60 * 1000 ->
            validateSessionToken tok t w1 = (Returned (Some (x, sd)), w1))
      /\ validateSessionToken tok (t0 + (23 * 60 + 59) * 60 * 1000) w1
           = (Returned (Some (x, sd)), w1)
      /\ exists w2,
           validateSessionToken tok (t0 + (24 * 60 + 1) * 60 * 1000) w1 = (Returned None, w2)
           /\ JsMap.get tok (tokenToSessionMap w2) = None
           /\ JsMap.has tok (tokenToSessionMap w2) = false
           /\ forall t', validateSessionToken tok t' w2 = (Returned None, w2).
Proof.
  intros x client g uid uuid t0 w Hx.
  pose proof (issued_bound x client g uid uuid t0 w Hx) as Hb.
  set (tok := generateSessionToken uuid t0) in *.
  set (sd := issued_record client g uid tok t0) in *.
  set (w1 := snd (storeSessionData x client g uid uuid t0 w)) in *.
  destruct Hb as (Hb1 & _ & Hb2 & Hb3).
  assert (Hin : forall t, t < t0 + 24 * 60 * 60 * 1000 ->
                  validateSessionToken tok t w1 = (Returned (Some (x, sd)), w1)).
  { intros t Ht. apply validate_in_time; auto.
    unfold maxAge. simpl. lia. }
  exists tok, w1, sd. split; [apply storeSessionData_shape|].
  split; [reflexivity|].
  split; [apply Hin; lia|].
  split; [exact Hin|].
  split; [apply Hin; lia|].
  eexists. split; [|split; [|split]].
  - apply (validate_expired tok _ w1 x sd); auto.
    unfold maxAge. simpl. lia.
  - simpl. apply JsMapFacts.get_delete_eq.
  - unfold JsMap.has. simpl. now rewrite JsMapFacts.get_delete_eq.
  - intros t'. apply validate_unknown. simpl. apply JsMapFacts.get_delete_eq.
Qed.

Lemma issued_token_lifecycle_witness :
  exists tok w1 sd,
    storeSessionData "auth-A" (client_of "A") (gmail_of "A") None
      "11111111-1111-4111-8111-111111111111" 1000 (initial_world plain_env)
      = (Returned tok, w1)
    /\ validateSessionToken tok 1000 w1 = (Returned (Some ("auth-A", sd)), w1)
    /\ exists w2,
         validateSessionToken tok (1000 + (24 * 60 + 1) * 60 * 1000) w1 = (Returned None, w2)
         /\ JsMap.get tok (tokenToSessionMap w2) = None.
Proof.
  destruct (issued_token_lifecycle "auth-A" (client_of "A") (gmail_of "A") None
              "11111111-1111-4111-8111-111111111111" 1000 (initial_world plain_env))
    as (tok & w1 & sd & Hs & _ & Hv & _ & _ & w2 & He & Hg & _).
  - discriminate.
  - exists tok, w1, sd. split; [exact Hs|]. split; [exact Hv|].
    exists w2. split; assumption.
Defined.

(** C9.  A token whose age is exactly 24 hours (86 400 000 ms) still
    validates, and nothing is deleted: the expiry test is a strict
    greater-than. *)
Theorem token_aged_exactly_24h_still_valid :
  forall (token sid : string) (sd : SessionData) (now : Z) (w : World),
    JsMap.get token (tokenToSessionMap w) = Some sid ->
    sid <> "" ->
    JsMap.get sid (sessionStore w) = Some sd ->
    sessionToken sd = Some token ->
    now - created_or_zero (tokenCreatedAt sd) = 24 * 60 * 60 * 1000 ->
    validateSessionToken token now w = (Returned (Some (sid, sd)), w).
Proof.
  intros token sid sd now w H1 Hs H2 H3 Hage.
  apply validate_in_time; auto.
  rewrite Hage. unfold maxAge. lia.
Qed.

Lemma token_aged_exactly_24h_still_valid_witness :
  validateSessionToken first_token (1000 + 24 * 60 * 60 * 1000) issued_once
  = (Returned (Some ("auth-A", issued_record (client_of "A") (gmail_of "A") None first_token 1000)),
     issued_once).
Proof.
  apply token_aged_exactly_24h_still_valid.
  - reflexivity.
  - discriminate.
  - reflexivity.
  - reflexivity.
  - reflexivity.
Defined.

(** C10.  After a second, different token has been issued for the same
    session id, the first token no longer validates, because the record now
    stores the second token; the failed validation changes nothing, so the
    first token is still a key of the token table, mapped to that session. *)
Theorem reissue_leaves_stale_mapping :
  forall (x : string) (c1 c2 : OAuth2Client) (g1 g2 : Gmail) (u1 u2 : option string)
         (uuid1 uuid2 : string) (t1 t2 now : Z) (w : World),
    generateSessionToken uuid1 t1 <> generateSessionToken uuid2 t2 ->
    exists old w1 new w2 sd,
      storeSessionData x c1 g1 u1 uuid1 t1 w = (Returned old, w1)
      /\ storeSessionData x c2 g2 u2 uuid2 t2 w1 = (Returned new, w2)
      /\ JsMap.get x (sessionStore w2) = Some sd
      /\ sessionToken sd = Some new
      /\ old <> new
      /\ validateSessionToken old now w2 = (Returned None, w2)
      /\ JsMap.get old (tokenToSessionMap w2) = Some x
      /\ JsMap.has old (tokenToSessionMap w2) = true.
Proof.
  intros x c1 c2 g1 g2 u1 u2 uuid1 uuid2 t1 t2 now w Hdiff.
  assert (Hinj : forall a b : string, Some a = Some b -> a = b)
    by (intros a b E; congruence).
  exists (generateSessionToken uuid1 t1),
         (snd (storeSessionData x c1 g1 u1 uuid1 t1 w)),
         (generateSessionToken uuid2 t2),
         (snd (storeSessionData x c2 g2 u2 uuid2 t2
                 (snd (storeSessionData x c1 g1 u1 uuid1 t1 w)))),
         (issued_record c2 g2 u2 (generateSessionToken uuid2 t2) t2).
  rewrite !storeSessionData_shape. simpl.
  assert (Hmap :
    JsMap.get (generateSessionToken uuid1 t1)
      (JsMap.set (generateSessionToken uuid2 t2) x
         (JsMap.set (generateSessionToken uuid1 t1) x (tokenToSessionMap w))) = Some x).
  { rewrite JsMapFacts.get_set_neq; [apply JsMapFacts.get_set_eq|].
    intros E. apply Hdiff. now symmetry. }
  split; [reflexivity|]. split; [reflexivity|].
  split; [apply JsMapFacts.get_set_eq|].
  split; [reflexivity|]. split; [exact Hdiff|].
  split; [|split].
  - eapply validate_mismatch.
    + exact Hmap.
    + simpl. apply JsMapFacts.get_set_eq.
    + unfold issued_record, sessionToken. intros E. apply Hdiff.
      symmetry. apply Hinj. exact E.
  - exact Hmap.
  - unfold JsMap.has. now rewrite Hmap.
Qed.

Lemma reissue_leaves_stale_mapping_witness :
  first_token <> second_token
  /\ exists old w1 new w2 sd,
       storeSessionData "auth-A" (client_of "A") (gmail_of "A") None
         "11111111-1111-4111-8111-111111111111" 1000 (initial_world plain_env)
         = (Returned old, w1)
       /\ storeSessionData "auth-A" (client_of "A") (gmail_of "A") None
            "22222222-2222-4222-8222-222222222222" 2000 w1
            = (Returned new, w2)
       /\ JsMap.get "auth-A" (sessionStore w2) = Some sd
       /\ sessionToken sd = Some new
       /\ old <> new
       /\ validateSessionToken old 3000 w2 = (Returned None, w2)
       /\ JsMap.get old (tokenToSessionMap w2) = Some "auth-A"
       /\ JsMap.has old (tokenToSessionMap w2) = true.
Proof.
  assert (Hdiff : first_token <> second_token) by (vm_compute; discriminate).
  split; [exact Hdiff|].
  apply reissue_leaves_stale_mapping. exact Hdiff.
Defined.

(** *** Authentication gate *)

Lemma getSessionData_absent (a : string) (w : World) :
  JsMap.get a (sessionStore w) = None ->
  getSessionData a w = (Returned None, w).
Proof. intros H. unfold getSessionData. run_M. now rewrite H. Qed.

(** A tool call that is not an authentication tool, carries an arguments
    object without a token, comes from a session without a record, and for
    which nothing can be loaded from disk, is answered with the
    "No authentication found" text. *)
Lemma gate_rejects_when_nothing_is_stored
  (env : ProcessEnv) (rc : RequestCtx) (name : string) (a : ToolArgs)
  (uuid : string) (now : Z) (w : World) :
  is_auth_tool name = false ->
  truthy (arg_sessionToken a) = false ->
  rc_mcpSessionId rc <> "" -> rc_authSessionId rc <> "" ->
  JsMap.get (rc_authSessionId rc) (sessionStore w) = None ->
  fst (loadCredentials env None (Some (rc_authSessionId rc)) w) = Returned None ->
  fst (callTool_gate env (Some rc) name (Some a) uuid now w)
    = Returned (Reply (no_authentication_text (rc_authSessionId rc))).
Proof.
  intros Hname Htok Hm Ha Hrec Hload.
  unfold callTool_gate. simpl.
  rewrite (eqb_empty_false _ Hm), (eqb_empty_false _ Ha).
  unfold bind at 1. rewrite (getSessionData_absent _ _ Hrec).
  rewrite Hname, Htok. simpl.
  unfold bind at 1. rewrite (getSessionData_absent _ _ Hrec).
  unfold getSessionOAuthClient. simpl.
  unfold bind at 1. unfold bind at 1. rewrite (getSessionData_absent _ _ Hrec).
  destruct (loadCredentials env None (Some (rc_authSessionId rc)) w) as [[o|e] w'] eqn:E;
    simpl in Hload; [|discriminate].
  injection Hload as ->. reflexivity.
Qed.

(** With a token that does not validate, the call is answered with the
    "Invalid or expired session token" text, whatever the session holds. *)
Lemma gate_rejects_invalid_token
  (env : ProcessEnv) (rc : option RequestCtx) (name : string) (a : ToolArgs)
  (uuid : string) (now : Z) (w : World) :
  is_auth_tool name = false ->
  truthy (arg_sessionToken a) = true ->
  (forall w0,
      fst (validateSessionToken (or_else (arg_sessionToken a) "") now w0) = Returned None) ->
  fst (callTool_gate env rc name (Some a) uuid now w) = Returned (Reply invalid_token_text).
Proof.
  intros Hname Htok Hbad.
  unfold callTool_gate.
  set (auth := or_else (option_map rc_authSessionId rc) _).
  unfold bind at 1.
  destruct (getSessionData auth w) as [[d|e] w0] eqn:E.
  2:{ exfalso. unfold getSessionData in E. run_M.
      destruct (JsMap.get auth (sessionStore w)) as [sd|]; [|discriminate].
      destruct (oauth2Client sd), (gmail sd); try discriminate;
        destruct (truthy (sessionToken sd)); discriminate. }
  rewrite Hname, Htok. unfold bind at 1.
  specialize (Hbad w0).
  destruct (validateSessionToken (or_else (arg_sessionToken a) "") now w0) as [[v|e] w1];
    simpl in Hbad; [|discriminate].
  injection Hbad as ->. reflexivity.
Qed.

(** A call without an arguments object does not reach the check at all. *)
Lemma gate_throws_without_arguments :
  fst (callTool_gate plain_env (Some request_of_B) "list_email_labels" None
         "33333333-3333-4333-8333-333333333333" 5000 (initial_world plain_env))
  = Thrown "TypeError: Cannot read properties of undefined (reading 'sessionToken')".
Proof. reflexivity. Qed.

(** With only the application's keys file in the working directory and no
    credentials anywhere, the gate lets an unauthenticated session through
    with a client that carries no credentials. *)
Lemma gate_passes_with_keys_file_only :
  exists store w',
    callTool_gate plain_env (Some request_of_B) "list_email_labels" (Some no_token)
      "33333333-3333-4333-8333-333333333333" 5000 keys_in_cwd
      = (Returned (Proceed store), w')
    /\ option_map credentials (store_oauth2Client store) = Some None.
Proof. eexists _, _. split; vm_compute; reflexivity. Qed.

(** C4, at the failing input.  The server runs with both credential paths set
    through the environment, and tenant A has authenticated through
    [setup_authentication].  Tenant B, whose session has no record in the
    session store, then calls [list_email_labels] with an arguments object
    that carries no token.  The call is not answered with an authentication
    error: it proceeds with the very OAuth client of A's record, A's
    credentials included, and a record is filed for B with it. *)
Theorem gate_proceeds_with_another_sessions_credentials :
  JsMap.get "auth-B" (sessionStore after_A_authenticated) = None
  /\ exists store w' recA,
       callTool_gate docker_env (Some request_of_B) "list_email_labels" (Some no_token)
         "33333333-3333-4333-8333-333333333333" 5000 after_A_authenticated
         = (Returned (Proceed store), w')
       /\ JsMap.get "auth-A" (sessionStore after_A_authenticated) = Some recA
       /\ store_oauth2Client store = oauth2Client recA
       /\ option_map credentials (store_oauth2Client store)
            = Some (Some (JsonTokens "access-A" "refresh-A"))
       /\ JsMap.has "auth-B" (sessionStore w') = true.
Proof.
  split; [reflexivity|].
  eexists _, _, _. split; [vm_compute; reflexivity|].
  split; [vm_compute; reflexivity|].
  split; [reflexivity|]. split; reflexivity.
Qed.

End GmailServerFacts.

(** ** Capability discovery *)

Module DiscoveryFacts.

Import SessionTransport GmailServer Scenarios.

Lemma register_all_handlers (th : list (Schema * Handler)) (srv : Server) :
  _requestHandlers (register_all th srv) =
    fold_left (fun hs sh => JsMap.set (schema_method (fst sh)) (snd sh) hs)
              th (_requestHandlers srv).
Proof.
  unfold register_all. revert srv.
  induction th as [|[s h] th IH]; intros srv; simpl; [reflexivity|].
  now rewrite IH.
Qed.

Lemma register_all_other (th : list (Schema * Handler)) :
  forall (srv : Server) (method : string),
    ~ In method (methods_of th) ->
    JsMap.get method (_requestHandlers (register_all th srv))
    = JsMap.get method (_requestHandlers srv).
Proof.
  unfold register_all, methods_of.
  induction th as [|[s h] th IH]; intros srv method Hnot; simpl in *; [reflexivity|].
  rewrite IH by tauto. simpl.
  apply JsMapFacts.get_set_neq. tauto.
Qed.

(** The registration loop files every entry of a table whose schemas name
    distinct methods. *)
Lemma register_all_registers (th : list (Schema * Handler)) :
  forall (srv : Server) (s : Schema) (h : Handler),
    NoDup (methods_of th) -> In (s, h) th ->
    JsMap.get (schema_method s) (_requestHandlers (register_all th srv)) = Some h.
Proof.
  unfold methods_of.
  induction th as [|[s0 h0] th IH]; intros srv s h Hnd Hin; simpl in *; [contradiction|].
  inversion Hnd as [|? ? Hfresh Hnd']; subst.
  destruct Hin as [Heq|Hin].
  - injection Heq as -> ->.
    fold (register_all th (setRequestHandler srv s h)).
    rewrite (register_all_other th _ _ Hfresh). simpl.
    apply JsMapFacts.get_set_eq.
  - now apply IH.
Qed.

(** A table with the invocation handler alone leaves discovery unanswered. *)
Lemma discovery_needs_its_handler (cfg : ServerConfig) (caps uuid : string) (now : Z) :
  listTools (mcpServer (new_session cfg caps [(CallToolRequestSchema, toolHandler)] uuid now))
  = Thrown "Method not found".
Proof. reflexivity. Qed.

(** C6.  Let the handler table given to [getOrCreateSession] hold the
    discovery handler and the invocation handler under their request schemas
    (and name each method once).  Then every session it creates has, on its
    own protocol handler, the discovery handler under [tools/list] and the
    invocation handler under [tools/call]; a discovery call on that session
    returns the whole fixed list of eighteen operations, neither empty nor
    short of any operation the invocation handler dispatches on. *)
Theorem new_session_discovers_all_operations :
  forall (th : list (Schema * Handler)) (sid : option string) (cfg : ServerConfig)
         (caps uuid : string) (now : Z) (m : SessionAwareTransportManager),
    NoDup (methods_of th) ->
    In (ListToolsRequestSchema, listToolsHandler) th ->
    In (CallToolRequestSchema, toolHandler) th ->
    truthy sid = false ->
    exists sd m',
      getOrCreateSession sid true cfg caps th uuid now m = (Returned (sd, true), m')
      /\ JsMap.get uuid (sessions m') = Some sd
      /\ connectedTo (mcpServer sd) = Some (tr_sessionId (transport sd))
      /\ JsMap.get "tools/list" (_requestHandlers (mcpServer sd)) = Some listToolsHandler
      /\ JsMap.get "tools/call" (_requestHandlers (mcpServer sd)) = Some toolHandler
      /\ listTools (mcpServer sd) = Returned tools
      /\ map tool_name tools = operation_names
      /\ tools <> []
      /\ length tools = 18%nat.
Proof.
  intros th sid cfg caps uuid now m Hnd Hlist Hcall Hsid.
  pose proof (register_all_registers th (new_Server cfg caps) _ _ Hnd Hlist) as Hl.
  pose proof (register_all_registers th (new_Server cfg caps) _ _ Hnd Hcall) as Hc.
  exists (new_session cfg caps th uuid now).
  eexists. split.
  - unfold getOrCreateSession. rewrite Hsid. reflexivity.
  - simpl. split; [apply JsMapFacts.get_set_eq|].
    split; [reflexivity|]. split; [exact Hl|]. split; [exact Hc|].
    split.
    + unfold listTools. simpl. simpl in Hl. now rewrite Hl.
    + repeat split; try reflexivity. discriminate.
Qed.

Lemma new_session_discovers_all_operations_witness :
  exists sd m',
    getOrCreateSession None true demo_cfg "tools" toolHandlers "s3" 7 demo_manager
      = (Returned (sd, true), m')
    /\ JsMap.get "s3" (sessions m') = Some sd
    /\ connectedTo (mcpServer sd) = Some (tr_sessionId (transport sd))
    /\ JsMap.get "tools/list" (_requestHandlers (mcpServer sd)) = Some listToolsHandler
    /\ JsMap.get "tools/call" (_requestHandlers (mcpServer sd)) = Some toolHandler
    /\ listTools (mcpServer sd) = Returned tools
    /\ map tool_name tools = operation_names
    /\ tools <> []
    /\ length tools = 18%nat.
Proof.
  apply new_session_discovers_all_operations.
  - unfold methods_of. simpl. repeat constructor; simpl; intuition discriminate.
  - simpl. now left.
  - simpl. right. now left.
  - reflexivity.
Defined.

End DiscoveryFacts.

(** * Further properties of the code *)

(** ** Maps, continued *)

Module JsMapMore.

Section Facts.
Context {V : Type}.
Implicit Types (m : JsMap.t V) (k : string) (v : V).

Lemma get_absent k m : ~ In k (JsMap.keys m) -> JsMap.get k m = None.
Proof.
  intros Hnot. destruct (JsMap.get k m) as [v|] eqn:G; [|reflexivity].
  exfalso. apply Hnot. apply JsMapFacts.get_In in G.
  now apply (in_map fst) in G.
Qed.

Lemma set_absent k v m :
  JsMap.get k m = None -> JsMap.set k v m = (m ++ [(k, v)])%list.
Proof.
  induction m as [|[k' v'] m IH]; simpl; [reflexivity|].
  destruct (String.eqb k k'); [discriminate|].
  intros H. now rewrite IH.
Qed.

Lemma delete_set_absent k v m :
  JsMap.get k m = None -> JsMap.delete k (JsMap.set k v m) = m.
Proof.
  induction m as [|[k' v'] m IH]; simpl.
  - now rewrite String.eqb_refl.
  - destruct (String.eqb k k') eqn:E; [discriminate|].
    intros H. simpl. rewrite E. now rewrite IH.
Qed.

Lemma keys_delete_filter k m :
  JsMap.keys (JsMap.delete k m)
  = filter (fun k' => negb (String.eqb k k')) (JsMap.keys m).
Proof.
  induction m as [|[k' v'] m IH]; simpl; [reflexivity|].
  destruct (String.eqb k k'); simpl; now rewrite IH.
Qed.

End Facts.

End JsMapMore.

(** ** Session registry: shutdown, request handling, counters *)

Module SessionRequestsFacts.

Import SessionTransport Scenarios SessionRequests.

Lemma close_each_all :
  forall (ss : JsMap.t SessionTransportData) (tr : list Event),
    JsMap.wf ss ->
    close_each (JsMap.keys ss) {| sessions := ss; trace := tr |}
    = (Returned tt, {| sessions := []; trace := (tr ++ map close_event ss)%list |}).
Proof.
  induction ss as [|[k sd] ss IH]; intros tr Hwf; simpl.
  - now rewrite app_nil_r.
  - inversion Hwf as [|? ? Hfresh Hwf']; subst.
    unfold bind at 1.
    rewrite SessionTransportFacts.closeSession_shape. simpl.
    rewrite String.eqb_refl.
    rewrite (JsMapFacts.delete_absent k ss (JsMapMore.get_absent k ss Hfresh)).
    rewrite (IH _ Hwf'). unfold close_event at 2. simpl.
    now rewrite <- app_assoc.
Qed.

(** X1.  [destroy] on a table that holds each id once: every session's
    transport is closed, once each and in the order the sessions were
    created, the table ends up empty, and a second [destroy] does nothing. *)
Theorem destroy_closes_every_session :
  forall m : SessionAwareTransportManager,
    JsMap.wf (sessions m) ->
    destroy m =
      (Returned tt,
       {| sessions := [];
          trace := (trace m ++ map close_event (sessions m))%list |})
    /\ totalSessions (getSessionStats 0 (snd (destroy m))) = 0%nat
    /\ destroy (snd (destroy m)) = (Returned tt, snd (destroy m)).
Proof.
  intros [ss tr] Hwf. simpl in Hwf.
  assert (E : destroy {| sessions := ss; trace := tr |}
              = (Returned tt,
                 {| sessions := []; trace := (tr ++ map close_event ss)%list |})).
  { unfold destroy. run_M. now apply close_each_all. }
  rewrite E. simpl. repeat split; reflexivity.
Qed.

Lemma destroy_closes_every_session_witness :
  destroy demo_manager =
    (Returned tt, {| sessions := []; trace := [BaseClose "s1"; BaseClose "s2"] |}).
Proof.
  assert (Hwf : JsMap.wf (sessions demo_manager)).
  { unfold JsMap.wf. simpl. repeat constructor; simpl; intuition discriminate. }
  exact (proj1 (destroy_closes_every_session demo_manager Hwf)).
Defined.

(** X2.  Whatever the request body and whatever the base transport then
    does, [handleSessionRequest] enters the base transport exactly once,
    under a context that carries the session's own id and auth id; the
    transport's own "no request context" refusal cannot occur on this path;
    the table of sessions is not touched; and the call returns normally
    exactly when the base transport does not throw. *)
Theorem handleSessionRequest_runs_under_session_context :
  forall (sd : SessionTransportData) (id : option JsonRpcId) (uuid : string)
         (now : Z) (b : BaseOutcome) (x : Exchange),
    trace (manager (snd (handleSessionRequest sd id uuid now b x)))
      = (trace (manager x)
         ++ [BaseHandleRequest (tr_sessionId (transport sd))
               {| ctx_sessionId := sessionId sd;
                  ctx_authSessionId := authSessionId sd;
                  ctx_requestId := request_id id uuid;
                  ctx_startTime := now |}])%list
    /\ sessions (manager (snd (handleSessionRequest sd id uuid now b x)))
         = sessions (manager x)
    /\ fst (handleSessionRequest sd id uuid now b x)
         = match base_throws b with
           | Some e => Thrown e
           | None => Returned tt
           end.
Proof.
  intros sd id uuid now b x.
  unfold handleSessionRequest, try_catch, on_manager, base_handling, handleRequest,
    emit, respond.
  run_M.
  destruct (base_throws b) as [e|]; simpl.
  - destruct (negb (headersSent (res x) || base_sends_headers b)); simpl;
      repeat split; reflexivity.
  - repeat split; reflexivity.
Qed.

(** X3.  When the base transport throws, the error is passed on to the
    caller in every case; a 500 response with JSON-RPC code -32603, naming
    the session and the request id, is written exactly when no headers had
    been sent by then, and otherwise the response is left as it is. *)
Theorem handleSessionRequest_reports_failure :
  forall (sd : SessionTransportData) (id : option JsonRpcId) (uuid : string)
         (now : Z) (sends : bool) (e : string) (x : Exchange),
    fst (handleSessionRequest sd id uuid now
           {| base_sends_headers := sends; base_throws := Some e |} x) = Thrown e
    /\ written (res (snd (handleSessionRequest sd id uuid now
                            {| base_sends_headers := sends; base_throws := Some e |} x)))
       = if headersSent (res x) || sends then written (res x)
         else Some (500,
                    {| err_code := -32603;
                       err_message := "Internal server error in session context";
                       err_sessionId := sessionId sd;
                       err_id := request_id id uuid |}).
Proof.
  intros sd id uuid now sends e x.
  unfold handleSessionRequest, try_catch, on_manager, base_handling, handleRequest,
    emit, respond.
  run_M.
  destruct (headersSent (res x) || sends); simpl; split; reflexivity.
Qed.

(** X4.  Creating a session under an id the table does not hold and then
    closing that id gives back the table as it was; the session was listed in
    between. *)
Theorem create_then_close_restores_table :
  forall (sid : option string) (cfg : ServerConfig) (caps : string)
         (th : list (Schema * Handler)) (uuid : string) (now : Z)
         (m : SessionAwareTransportManager),
    truthy sid = false ->
    JsMap.get uuid (sessions m) = None ->
    let created := snd (getOrCreateSession sid true cfg caps th uuid now m) in
    totalSessions (getSessionStats now created) = S (totalSessions (getSessionStats now m))
    /\ fst (closeSession uuid created) = Returned true
    /\ sessions (snd (closeSession uuid created)) = sessions m.
Proof.
  intros sid cfg caps th uuid now m Hsid Hfresh. cbv zeta.
  rewrite (SessionTransportFacts.getOrCreateSession_create sid cfg caps th uuid now m Hsid).
  rewrite SessionTransportFacts.closeSession_shape. simpl.
  rewrite JsMapFacts.get_set_eq. simpl.
  split; [|split; [reflexivity|now apply JsMapMore.delete_set_absent]].
  unfold JsMap.size. rewrite (JsMapMore.set_absent _ _ _ Hfresh).
  rewrite length_app. simpl. lia.
Qed.

Lemma create_then_close_restores_table_witness :
  sessions (snd (closeSession "s3"
                   (snd (getOrCreateSession None true demo_cfg "tools" [] "s3" 7
                           demo_manager))))
  = sessions demo_manager.
Proof.
  apply (create_then_close_restores_table None demo_cfg "tools" [] "s3" 7 demo_manager);
    reflexivity.
Defined.

Lemma last_cons (rest : list Z) : forall a d : Z, last (a :: rest) d = last rest a.
Proof.
  induction rest as [|b r IH]; intros a d; [reflexivity|].
  change (last (a :: b :: r) d) with (last (b :: r) d).
  now rewrite (IH b d), (IH b a).
Qed.

Lemma serve_counts (cfg : ServerConfig) (caps : string) (th : list (Schema * Handler))
  (uuid sid : string) :
  sid <> "" ->
  forall (clocks : list Z) (m : SessionAwareTransportManager) (sd : SessionTransportData),
    JsMap.get sid (sessions m) = Some sd ->
    exists m',
      serve sid cfg caps th uuid clocks m = (Returned tt, m')
      /\ JsMap.get sid (sessions m')
         = Some {| transport := transport sd; mcpServer := mcpServer sd;
                   sessionId := sessionId sd; authSessionId := authSessionId sd;
                   createdAt := createdAt sd;
                   lastActivity := last_clock clocks (lastActivity sd);
                   requestCount := requestCount sd + Z.of_nat (length clocks) |}
      /\ (forall k, k <> sid -> JsMap.get k (sessions m') = JsMap.get k (sessions m))
      /\ trace m' = trace m.
Proof.
  intros Hsid. induction clocks as [|now rest IH]; intros m sd Hget.
  - exists m. simpl. rewrite Z.add_0_r. destruct sd. simpl in *. auto.
  - simpl serve. unfold bind at 1.
    rewrite (SessionTransportFacts.getOrCreateSession_existing
               sid sd false cfg caps th uuid now m Hsid Hget).
    destruct (IH {| sessions := JsMap.set sid (touch now sd) (sessions m);
                    trace := trace m |} (touch now sd))
      as (m' & Hrun & Hrec & Hother & Htr).
    { simpl. apply JsMapFacts.get_set_eq. }
    exists m'. split; [exact Hrun|]. split; [|split].
    + rewrite Hrec. simpl. f_equal. f_equal.
      * unfold last_clock. symmetry. apply last_cons.
      * lia.
    + intros k Hk. rewrite (Hother k Hk). simpl.
      apply JsMapFacts.get_set_neq. congruence.
    + exact Htr.
Qed.

(** X5.  A registered session that serves a run of requests ends with its
    [requestCount] raised by the number of requests and its [lastActivity]
    at the clock of the last one; its identity, creation time, server and
    transport stay as they were, and no other session is touched. *)
Theorem requestCount_counts_requests :
  forall (cfg : ServerConfig) (caps : string) (th : list (Schema * Handler))
         (uuid sid : string) (clocks : list Z) (m : SessionAwareTransportManager)
         (sd : SessionTransportData),
    sid <> "" ->
    JsMap.get sid (sessions m) = Some sd ->
    exists m' sd',
      serve sid cfg caps th uuid clocks m = (Returned tt, m')
      /\ JsMap.get sid (sessions m') = Some sd'
      /\ requestCount sd' = requestCount sd + Z.of_nat (length clocks)
      /\ lastActivity sd' = last_clock clocks (lastActivity sd)
      /\ createdAt sd' = createdAt sd
      /\ sessionId sd' = sessionId sd /\ authSessionId sd' = authSessionId sd
      /\ transport sd' = transport sd /\ mcpServer sd' = mcpServer sd
      /\ (forall k, k <> sid -> JsMap.get k (sessions m') = JsMap.get k (sessions m)).
Proof.
  intros cfg caps th uuid sid clocks m sd Hsid Hget.
  destruct (serve_counts cfg caps th uuid sid Hsid clocks m sd Hget)
    as (m' & Hrun & Hrec & Hother & _).
  eexists m', _. split; [exact Hrun|]. split; [exact Hrec|].
  simpl. repeat split; auto.
Qed.

Lemma requestCount_counts_requests_witness :
  exists m' sd',
    serve "s1" demo_cfg "tools" [] "u" [5000; 6000; 7000] demo_manager = (Returned tt, m')
    /\ JsMap.get "s1" (sessions m') = Some sd'
    /\ requestCount sd' = 6 /\ lastActivity sd' = 7000.
Proof.
  destruct (requestCount_counts_requests demo_cfg "tools" [] "u" "s1"
              [5000; 6000; 7000] demo_manager (demo_session "s1" 1000))
    as (m' & sd' & Hrun & Hrec & Hc & Hl & _).
  - discriminate.
  - reflexivity.
  - exists m', sd'. repeat split; assumption.
Defined.

End SessionRequestsFacts.

(** ** Token registry: sweeper, record retrieval, teardown *)

Module GmailServerMoreFacts.

Import GmailServer TokenScenarios GmailServerMore.

#[local] Arguments generateSessionToken : simpl never.
#[local] Arguments path_join : simpl never.
#[local] Arguments callback_of : simpl never.

Lemma sessionCleanup_loop_spec (now : Z) :
  forall (es : list (string * SessionData)) (c : Z) (w : World),
    NoDup (map fst es) ->
    (forall k sd, In (k, sd) es -> JsMap.get k (sessionStore w) = Some sd) ->
    exists w',
      sessionCleanup_loop now es c w
        = (Returned (c + Z.of_nat (length (filter (fun e => expired now (snd e)) es))), w')
      /\ (forall k, JsMap.get k (sessionStore w') =
            if existsb (fun e => String.eqb (fst e) k && expired now (snd e)) es
            then None else JsMap.get k (sessionStore w))
      /\ (forall t, JsMap.get t (tokenToSessionMap w') =
            if existsb (fun e => expired now (snd e) && truthy (sessionToken (snd e))
                                 && String.eqb (or_else (sessionToken (snd e)) "") t) es
            then None else JsMap.get t (tokenToSessionMap w))
      /\ files w' = files w /\ dirs w' = dirs w
      /\ CONFIG_DIR w' = CONFIG_DIR w /\ OAUTH_PATH w' = OAUTH_PATH w
      /\ CREDENTIALS_PATH w' = CREDENTIALS_PATH w.
Proof.
  induction es as [|[k0 sd0] es IH]; intros c w Hnd Hlive.
  - exists w. simpl. rewrite Z.add_0_r. repeat split; reflexivity.
  - inversion Hnd as [|? ? Hfresh Hnd']; subst.
    simpl sessionCleanup_loop. fold (expired now sd0).
    simpl filter. simpl existsb.
    destruct (expired now sd0) eqn:Hexp.
    + set (w1 := with_registries
                   (JsMap.delete k0 (sessionStore w))
                   (if truthy (sessionToken sd0)
                    then JsMap.delete (or_else (sessionToken sd0) "") (tokenToSessionMap w)
                    else tokenToSessionMap w) w).
      destruct (IH (c + 1) w1 Hnd') as (w' & Hrun & Hs & Ht & Hf & Hd & Hc & Ho & Hk).
      { intros k sd Hin. unfold w1. simpl.
        rewrite JsMapFacts.get_delete_neq; [apply Hlive; now right|].
        intros ->. apply Hfresh. now apply (in_map fst) in Hin. }
      exists w'. split.
      { transitivity (sessionCleanup_loop now es (c + 1) w1).
        - unfold w1, bind, delete_token, delete_session, modify, ret.
          destruct (truthy (sessionToken sd0)); reflexivity.
        - rewrite Hrun. simpl length. rewrite Nat2Z.inj_succ.
          f_equal. f_equal. lia. }
      split; [|split; [|repeat split; assumption]].
      * intros k. rewrite Hs. unfold w1. simpl.
        destruct (String.eqb k0 k) eqn:E; simpl.
        -- apply String.eqb_eq in E. subst k.
           rewrite JsMapFacts.get_delete_eq. now destruct (existsb _ es).
        -- rewrite JsMapFacts.get_delete_neq; auto.
           intros ->. now rewrite String.eqb_refl in E.
      * intros t. rewrite Ht. unfold w1. simpl.
        destruct (truthy (sessionToken sd0)) eqn:Htr; simpl; [|reflexivity].
        destruct (String.eqb (or_else (sessionToken sd0) "") t) eqn:E; simpl.
        -- apply String.eqb_eq in E. rewrite <- E.
           rewrite JsMapFacts.get_delete_eq. now destruct (existsb _ es).
        -- rewrite JsMapFacts.get_delete_neq; auto.
           intros E'. rewrite E' in E. now rewrite String.eqb_refl in E.
    + destruct (IH c w Hnd') as (w' & Hrun & Hs & Ht & Hrest).
      { intros k sd Hin. apply Hlive. now right. }
      exists w'. split; [exact Hrun|].
      split; [|split; [|exact Hrest]].
      * intros k. rewrite Hs. now rewrite andb_false_r.
      * intros t. rewrite Ht. reflexivity.
Qed.

(** X6.  One firing of the token sweeper at clock [now], on a session store
    that holds each id once: every record older than 24 hours is removed and
    the token stored in it is no longer a key of the token table; every
    record aged 24 hours or less is left exactly as it was; the count returned
    is the number of records removed; disk and paths are not touched.  A
    record without a creation date counts as created at the epoch. *)
Theorem sessionCleanup_removes_expired_records :
  forall (now : Z) (w : World),
    JsMap.wf (sessionStore w) ->
    exists w',
      sessionCleanup now w
        = (Returned (Z.of_nat (length (filter (fun e => expired now (snd e))
                                              (sessionStore w)))), w')
      /\ (forall sid sd,
            JsMap.get sid (sessionStore w) = Some sd ->
            (now - created_or_zero (tokenCreatedAt sd) > maxAge ->
               JsMap.get sid (sessionStore w') = None
               /\ forall tok, sessionToken sd = Some tok -> tok <> "" ->
                              JsMap.get tok (tokenToSessionMap w') = None)
            /\ (now - created_or_zero (tokenCreatedAt sd) <= maxAge ->
                  JsMap.get sid (sessionStore w') = Some sd))
      /\ files w' = files w /\ dirs w' = dirs w.
Proof.
  intros now w Hwf.
  destruct (sessionCleanup_loop_spec now (JsMap.entries (sessionStore w)) 0 w)
    as (w' & Hrun & Hs & Ht & Hf & Hd & _).
  { exact Hwf. }
  { intros k sd Hin. now apply JsMapFacts.In_get_wf. }
  exists w'. split; [unfold sessionCleanup; run_M; exact Hrun|].
  split; [|split; assumption].
  intros sid sd Hsid. split.
  - intros Hold.
    assert (Hexp : expired now sd = true) by (unfold expired; lia).
    split.
    + rewrite Hs. replace (existsb _ _) with true; [reflexivity|].
      symmetry. apply existsb_exists. exists (sid, sd). simpl.
      split; [now apply JsMapFacts.get_In|]. now rewrite String.eqb_refl.
    + intros tok Htok Hne. rewrite Ht.
      replace (existsb _ _) with true; [reflexivity|].
      symmetry. apply existsb_exists. exists (sid, sd). simpl.
      split; [now apply JsMapFacts.get_In|].
      rewrite Hexp, Htok. simpl.
      destruct (String.eqb tok "") eqn:E.
      * apply String.eqb_eq in E. contradiction.
      * simpl. now rewrite String.eqb_refl.
  - intros Hyoung.
    assert (Hexp : expired now sd = false) by (unfold expired; lia).
    rewrite Hs. destruct (existsb _ _) eqn:E; [|exact Hsid].
    apply existsb_exists in E. destruct E as ([k v] & Hin & Hf'). simpl in Hf'.
    apply andb_prop in Hf'. destruct Hf' as [Hk Hv].
    apply String.eqb_eq in Hk. subst k.
    apply (JsMapFacts.In_get_wf sid v (sessionStore w) Hwf) in Hin. congruence.
Qed.

Lemma sessionCleanup_removes_expired_records_witness :
  exists w',
    sessionCleanup (1000 + day + 1) issued_once = (Returned 1, w')
    /\ JsMap.get "auth-A" (sessionStore w') = None
    /\ JsMap.get first_token (tokenToSessionMap w') = None.
Proof.
  assert (Hwf : JsMap.wf (sessionStore issued_once)).
  { unfold JsMap.wf. simpl. repeat constructor. intros []. }
  destruct (sessionCleanup_removes_expired_records (1000 + day + 1) issued_once Hwf)
    as (w' & Hrun & H & _).
  destruct (H "auth-A" (issued_record (client_of "A") (gmail_of "A") None first_token 1000)
              eq_refl) as [Hold _].
  destruct Hold as [Hgone Htok]; [vm_compute; reflexivity|].
  exists w'. split; [exact Hrun|]. split; [exact Hgone|].
  apply Htok; [reflexivity|]. vm_compute. discriminate.
Defined.

(** X7.  After the sweeper has run at clock [now], validating any token at
    that clock or an earlier one changes nothing: the sweeper leaves no
    expired record for the validator to clean up. *)
Theorem validation_after_sweep_changes_nothing :
  forall (now t : Z) (token : string) (w : World),
    JsMap.wf (sessionStore w) ->
    t <= now ->
    snd (validateSessionToken token t (snd (sessionCleanup now w)))
    = snd (sessionCleanup now w).
Proof.
  intros now t token w Hwf Ht.
  destruct (sessionCleanup_loop_spec now (JsMap.entries (sessionStore w)) 0 w)
    as (w' & Hrun & Hs & _).
  { exact Hwf. }
  { intros k sd Hin. now apply JsMapFacts.In_get_wf. }
  assert (E : sessionCleanup now w = (Returned (0 + Z.of_nat (length (filter (fun e => expired now (snd e)) (JsMap.entries (sessionStore w))))), w')).
  { unfold sessionCleanup. run_M. exact Hrun. }
  rewrite E. simpl.
  destruct (GmailServerFacts.validate_cases token t w')
    as [[Ev _]|(sid & sd & Hb & [[_ Ev]|[Hgt _]])]; try (now rewrite Ev).
  exfalso. destruct Hb as (_ & _ & Hrec & _).
  rewrite Hs in Hrec.
  destruct (existsb _ _) eqn:Ex; [discriminate|].
  assert (Hexp : expired now sd = false).
  { destruct (expired now sd) eqn:Hexp; [|reflexivity].
    assert (Hin : In (sid, sd) (JsMap.entries (sessionStore w)))
      by now apply JsMapFacts.get_In.
    assert (Htrue : existsb (fun e => String.eqb (fst e) sid && expired now (snd e))
                      (JsMap.entries (sessionStore w)) = true).
    { apply existsb_exists. exists (sid, sd). simpl.
      split; [exact Hin|]. now rewrite String.eqb_refl. }
    congruence. }
  unfold expired in Hexp. unfold token_age in Hgt.
  destruct (Z.gtb_spec (now - created_or_zero (tokenCreatedAt sd)) maxAge); [discriminate|].
  lia.
Qed.

Lemma validation_after_sweep_changes_nothing_witness :
  snd (validateSessionToken first_token (1000 + day + 1)
         (snd (sessionCleanup (1000 + day + 1) issued_once)))
  = snd (sessionCleanup (1000 + day + 1) issued_once).
Proof.
  apply validation_after_sweep_changes_nothing.
  - unfold JsMap.wf. simpl. repeat constructor. intros [].
  - lia.
Defined.

Lemma getSessionData_shape (a : string) (w : World) :
  getSessionData a w =
    match JsMap.get a (sessionStore w) with
    | None => (Returned None, w)
    | Some d =>
        match oauth2Client d, gmail d with
        | Some _, Some _ => (Returned (Some d), w)
        | _, _ =>
            (Returned None,
             with_registries (JsMap.delete a (sessionStore w))
               (if truthy (sessionToken d)
                then JsMap.delete (or_else (sessionToken d) "") (tokenToSessionMap w)
                else tokenToSessionMap w) w)
        end
    end.
Proof.
  unfold getSessionData. run_M.
  destruct (JsMap.get a (sessionStore w)) as [d|]; [|reflexivity].
  destruct (oauth2Client d), (gmail d); try reflexivity;
    destruct (truthy (sessionToken d)); reflexivity.
Qed.

(** X8.  [getSessionData] hands out a record exactly when the store holds
    one with both its OAuth client and its Gmail client, and then changes
    nothing.  A record lacking either is removed on the spot together with
    the mapping of the token stored in it, and [undefined] is returned.  No
    other session's record is affected, and asking again gives the same answer
    without further change. *)
Theorem getSessionData_returns_only_usable_records :
  forall (a : string) (w : World),
    (forall d,
        fst (getSessionData a w) = Returned (Some d)
        <-> JsMap.get a (sessionStore w) = Some d
            /\ oauth2Client d <> None /\ gmail d <> None)
    /\ (forall d, fst (getSessionData a w) = Returned (Some d) ->
                  snd (getSessionData a w) = w)
    /\ (fst (getSessionData a w) = Returned None ->
        JsMap.get a (sessionStore (snd (getSessionData a w))) = None)
    /\ (forall d tok,
          JsMap.get a (sessionStore w) = Some d ->
          fst (getSessionData a w) = Returned None ->
          sessionToken d = Some tok -> tok <> "" ->
          JsMap.get tok (tokenToSessionMap (snd (getSessionData a w))) = None)
    /\ (forall k, k <> a ->
          JsMap.get k (sessionStore (snd (getSessionData a w)))
          = JsMap.get k (sessionStore w))
    /\ getSessionData a (snd (getSessionData a w))
       = (fst (getSessionData a w), snd (getSessionData a w)).
Proof.
  intros a w. rewrite getSessionData_shape.
  assert (Hdel : forall tm, JsMap.get a (sessionStore
            (with_registries (JsMap.delete a (sessionStore w)) tm w)) = None).
  { intros tm. simpl. apply JsMapFacts.get_delete_eq. }
  destruct (JsMap.get a (sessionStore w)) as [d0|] eqn:G;
    [destruct (oauth2Client d0) as [c|] eqn:Ec;
       [destruct (gmail d0) as [g|] eqn:Eg|]|];
    simpl fst; simpl snd.
  - split; [|split; [|split; [|split; [|split]]]].
    + intros d. split.
      * intros [= <-]. repeat split; congruence.
      * intros (E & _). congruence.
    + reflexivity.
    + discriminate.
    + discriminate.
    + reflexivity.
    + rewrite getSessionData_shape, G, Ec, Eg. reflexivity.
  - split; [|split; [|split; [|split; [|split]]]].
    + intros d. split; [discriminate|]. intros (E & _ & Hg). congruence.
    + discriminate.
    + intros _. apply Hdel.
    + intros d tok [= <-] _ Htok Hne. rewrite Htok. simpl.
      rewrite (GmailServerFacts.eqb_empty_false tok Hne). simpl.
      apply JsMapFacts.get_delete_eq.
    + intros k Hk. simpl. now apply JsMapFacts.get_delete_neq.
    + rewrite getSessionData_shape, Hdel. reflexivity.
  - split; [|split; [|split; [|split; [|split]]]].
    + intros d. split; [discriminate|]. intros (E & Hc & _). congruence.
    + discriminate.
    + intros _. apply Hdel.
    + intros d tok [= <-] _ Htok Hne. rewrite Htok. simpl.
      rewrite (GmailServerFacts.eqb_empty_false tok Hne). simpl.
      apply JsMapFacts.get_delete_eq.
    + intros k Hk. simpl. now apply JsMapFacts.get_delete_neq.
    + rewrite getSessionData_shape, Hdel. reflexivity.
  - split; [|split; [|split; [|split; [|split]]]].
    + intros d. split; [discriminate|]. intros (E & _). congruence.
    + discriminate.
    + intros _. exact G.
    + intros d tok E. congruence.
    + reflexivity.
    + rewrite getSessionData_shape, G. reflexivity.
Qed.

(** *** The authentication gate, continued *)

Lemma gate_entry (rc : RequestCtx) :
  rc_mcpSessionId rc <> "" -> rc_authSessionId rc <> "" ->
  or_else (option_map rc_mcpSessionId (Some rc)) "default" = rc_mcpSessionId rc
  /\ or_else (option_map rc_authSessionId (Some rc))
       ("auth-" ++ or_else (option_map rc_mcpSessionId (Some rc)) "default")
     = rc_authSessionId rc.
Proof.
  intros Hm Ha. simpl.
  now rewrite (GmailServerFacts.eqb_empty_false _ Hm),
              (GmailServerFacts.eqb_empty_false _ Ha).
Qed.

(** X9.  A valid token opens the gate for a session that has no record of
    its own: the call proceeds with the clients of the session the token
    belongs to, the store names that session as [sessionId] while keeping the
    caller's own auth id, and neither registry is changed. *)
Theorem gate_token_admits_any_session :
  forall (env : ProcessEnv) (rc : RequestCtx) (name : string) (a : ToolArgs)
         (token sid : string) (sd : SessionData) (c : OAuth2Client) (g : Gmail)
         (uuid : string) (now : Z) (w : World),
    is_auth_tool name = false ->
    arg_sessionToken a = Some token -> token <> "" ->
    rc_mcpSessionId rc <> "" -> rc_authSessionId rc <> "" ->
    JsMap.get (rc_authSessionId rc) (sessionStore w) = None ->
    bound_to token w sid sd -> token_age now sd <= maxAge ->
    oauth2Client sd = Some c -> gmail sd = Some g ->
    callTool_gate env (Some rc) name (Some a) uuid now w =
      (Returned
         (Proceed {| store_gmail := Some g; store_oauth2Client := Some c;
                     store_sessionId := Some sid; store_userId := userId sd;
                     store_mcpSessionId := Some (rc_mcpSessionId rc);
                     store_authSessionId := Some (rc_authSessionId rc) |}),
       w).
Proof.
  intros env rc name a token sid sd c g uuid now w
         Hname Htok Hne Hm Ha Hrec (Hb1 & Hb2 & Hb3 & Hb4) Hage Hc Hg.
  unfold callTool_gate.
  destruct (gate_entry rc Hm Ha) as [Em Ea]. rewrite Ea, Em.
  unfold bind at 1. rewrite (GmailServerFacts.getSessionData_absent _ _ Hrec).
  rewrite Hname, Htok.
  assert (Et : truthy (Some token) = true).
  { simpl. now rewrite (GmailServerFacts.eqb_empty_false token Hne). }
  assert (Eo : or_else (Some token) "" = token).
  { simpl. now rewrite (GmailServerFacts.eqb_empty_false token Hne). }
  rewrite Et, Eo. cbv iota.
  unfold bind at 1.
  rewrite (GmailServerFacts.validate_in_time token now w sid sd Hb1 Hb2 Hb3 Hb4 Hage).
  unfold ret, gate_check. rewrite Hc, Hg. reflexivity.
Qed.

Lemma gate_token_admits_any_session_witness :
  exists store,
    callTool_gate plain_env (Some request_of_B) "list_email_labels"
      (Some {| arg_sessionToken := Some first_token |}) "u" 2000 issued_once
    = (Returned (Proceed store), issued_once)
    /\ store_sessionId store = Some "auth-A"
    /\ store_authSessionId store = Some "auth-B".
Proof.
  assert (Hne : first_token <> "") by (vm_compute; discriminate).
  assert (Hb : bound_to first_token issued_once "auth-A"
                 (issued_record (client_of "A") (gmail_of "A") None first_token 1000)).
  { repeat split; try reflexivity. discriminate. }
  assert (Hage : token_age 2000
                   (issued_record (client_of "A") (gmail_of "A") None first_token 1000)
                 <= maxAge) by (vm_compute; discriminate).
  eexists. split.
  - exact (gate_token_admits_any_session plain_env request_of_B "list_email_labels"
             {| arg_sessionToken := Some first_token |} first_token "auth-A"
             (issued_record (client_of "A") (gmail_of "A") None first_token 1000)
             (client_of "A") (gmail_of "A") "u" 2000 issued_once
             eq_refl eq_refl Hne
             (fun E => ltac:(discriminate E)) (fun E => ltac:(discriminate E))
             eq_refl Hb Hage eq_refl eq_refl).
  - split; reflexivity.
Defined.

(** X10.  A session whose record holds both clients is let through without
    a token, with its own clients, and the call leaves the state as it
    was. *)
Theorem gate_admits_session_with_record :
  forall (env : ProcessEnv) (rc : RequestCtx) (name : string) (a : ToolArgs)
         (sd : SessionData) (c : OAuth2Client) (g : Gmail)
         (uuid : string) (now : Z) (w : World),
    is_auth_tool name = false ->
    truthy (arg_sessionToken a) = false ->
    rc_mcpSessionId rc <> "" -> rc_authSessionId rc <> "" ->
    JsMap.get (rc_authSessionId rc) (sessionStore w) = Some sd ->
    oauth2Client sd = Some c -> gmail sd = Some g ->
    callTool_gate env (Some rc) name (Some a) uuid now w =
      (Returned
         (Proceed {| store_gmail := Some g; store_oauth2Client := Some c;
                     store_sessionId := Some (rc_authSessionId rc);
                     store_userId := userId sd;
                     store_mcpSessionId := Some (rc_mcpSessionId rc);
                     store_authSessionId := Some (rc_authSessionId rc) |}),
       w).
Proof.
  intros env rc name a sd c g uuid now w Hname Htok Hm Ha Hrec Hc Hg.
  unfold callTool_gate.
  destruct (gate_entry rc Hm Ha) as [Em Ea]. rewrite Ea, Em.
  unfold bind at 1. rewrite getSessionData_shape, Hrec, Hc, Hg.
  rewrite Hname, Htok. simpl. rewrite Hc, Hg. reflexivity.
Qed.

Lemma gate_admits_session_with_record_witness :
  exists store,
    callTool_gate plain_env (Some request_of_A) "list_email_labels" (Some no_token)
      "u" 2000 issued_once
    = (Returned (Proceed store), issued_once)
    /\ store_oauth2Client store = Some (client_of "A").
Proof.
  eexists. split.
  - exact (gate_admits_session_with_record plain_env request_of_A "list_email_labels"
             no_token
             (issued_record (client_of "A") (gmail_of "A") None first_token 1000)
             (client_of "A") (gmail_of "A") "u" 2000 issued_once
             eq_refl eq_refl
             (fun E => ltac:(discriminate E)) (fun E => ltac:(discriminate E))
             eq_refl eq_refl eq_refl).
  - reflexivity.
Defined.

(** *** Credentials on disk *)

Section KeepsRegistries.

Context {A B : Type}.

Lemma keeps_ret (a : A) : keeps_registries (ret a).
Proof. intros w. split; reflexivity. Qed.

Lemma keeps_throw (e : string) : keeps_registries (@throw World A e).
Proof. intros w. split; reflexivity. Qed.

Lemma keeps_get_state : keeps_registries (@get_state World).
Proof. intros w. split; reflexivity. Qed.

Lemma keeps_bind (c : M World A) (k : A -> M World B) :
  keeps_registries c -> (forall a, keeps_registries (k a)) -> keeps_registries (bind c k).
Proof.
  intros Hc Hk w. unfold bind. specialize (Hc w).
  destruct (c w) as [[a|e] w1]; simpl in *; [|exact Hc].
  destruct (Hk a w1) as [H1 H2]. destruct Hc as [H3 H4]. split; congruence.
Qed.

Lemma keeps_try_catch (c : M World A) (h : string -> M World A) :
  keeps_registries c -> (forall e, keeps_registries (h e)) ->
  keeps_registries (try_catch c h).
Proof.
  intros Hc Hh w. unfold try_catch. specialize (Hc w).
  destruct (c w) as [[a|e] w1]; simpl in *; [exact Hc|].
  destruct (Hh e w1) as [H1 H2]. destruct Hc as [H3 H4]. split; congruence.
Qed.

Lemma keeps_if (b : bool) (c1 c2 : M World A) :
  keeps_registries c1 -> keeps_registries c2 ->
  keeps_registries (if b then c1 else c2).
Proof. now destruct b. Qed.

End KeepsRegistries.

Lemma keeps_with_disk (f : World -> JsMap.t File) (d : World -> list string) :
  keeps_registries (modify (fun w => with_disk (f w) (d w) w)).
Proof. intros w. split; reflexivity. Qed.

Lemma keeps_updatePaths env sp sid : keeps_registries (updatePaths env sp sid).
Proof. intros w. split; reflexivity. Qed.

Lemma keeps_readJsonSync p : keeps_registries (readJsonSync p).
Proof.
  unfold readJsonSync. apply keeps_bind; [apply keeps_get_state|].
  intros w. destruct (JsMap.get p (files w)) as [[j|]|];
    [apply keeps_ret|apply keeps_throw|apply keeps_throw].
Qed.

Lemma keeps_copyFileSync src dst : keeps_registries (copyFileSync src dst).
Proof.
  unfold copyFileSync. apply keeps_bind; [apply keeps_get_state|].
  intros w. destruct (JsMap.get src (files w)).
  - apply (keeps_with_disk (fun w => JsMap.set dst f (files w)) dirs).
  - apply keeps_throw.
Qed.

Lemma keeps_mkdirSync p : keeps_registries (mkdirSync p).
Proof. apply (keeps_with_disk files (fun w => p :: dirs w)). Qed.

Lemma keeps_loadCredentials env sp sid : keeps_registries (loadCredentials env sp sid).
Proof.
  unfold loadCredentials.
  apply keeps_bind.
  { apply keeps_if; [apply keeps_updatePaths|apply keeps_ret]. }
  intros _. apply keeps_try_catch; [|intros e; apply keeps_ret].
  apply keeps_bind; [apply keeps_get_state|]. intros w0.
  apply keeps_bind.
  { apply keeps_if; [apply keeps_mkdirSync|apply keeps_ret]. }
  intros _. apply keeps_bind; [apply keeps_get_state|]. intros w1.
  apply keeps_bind.
  { apply keeps_if; [apply keeps_copyFileSync|apply keeps_ret]. }
  intros _. apply keeps_bind; [apply keeps_get_state|]. intros w2.
  apply keeps_if; [apply keeps_ret|].
  apply keeps_bind; [apply keeps_readJsonSync|]. intros keysContent.
  destruct (keys_of keysContent) as [keys|]; [|apply keeps_ret].
  apply keeps_if; [|apply keeps_ret].
  apply keeps_bind; [apply keeps_readJsonSync|]. intros c. apply keeps_ret.
Qed.

Lemma loadCredentials_returns env sp sid w :
  exists r, fst (loadCredentials env sp sid w) = Returned r.
Proof.
  unfold loadCredentials.
  assert (H0 : exists w1,
             (if truthy sp || truthy sid
              then updatePaths env (or_else sp (path_join (homedir env) ".gmail-mcp")) sid
              else ret tt) w = (Returned tt, w1)).
  { destruct (truthy sp || truthy sid); eexists; reflexivity. }
  destruct H0 as [w1 E]. unfold bind at 1. rewrite E.
  match goal with
  | |- context [try_catch ?body ?h w1] =>
      unfold try_catch; destruct (body w1) as [[r|e] w2]
  end; simpl; eauto.
Qed.

(** X11.  [loadCredentials] never throws, whatever lies on the disk: every
    failure inside it comes back as [null].  It reads and writes files and
    paths only: the session store and the token table are as before. *)
Theorem loadCredentials_never_throws :
  forall (env : ProcessEnv) (storagePath sessionId : option string) (w : World),
    (exists r, fst (loadCredentials env storagePath sessionId w) = Returned r)
    /\ sessionStore (snd (loadCredentials env storagePath sessionId w)) = sessionStore w
    /\ tokenToSessionMap (snd (loadCredentials env storagePath sessionId w))
       = tokenToSessionMap w.
Proof.
  intros env sp sid w. split; [apply loadCredentials_returns|].
  apply keeps_loadCredentials.
Qed.

Section TouchesOnly.

Context {A B : Type}.
Variable a : string.

Lemma touches_ret (x : A) : touches_only a (ret x).
Proof. intros w k _. reflexivity. Qed.

Lemma touches_throw (e : string) : touches_only a (@throw World A e).
Proof. intros w k _. reflexivity. Qed.

Lemma touches_bind (c : M World A) (k : A -> M World B) :
  touches_only a c -> (forall x, touches_only a (k x)) -> touches_only a (bind c k).
Proof.
  intros Hc Hk w key Hne. unfold bind. specialize (Hc w key Hne).
  destruct (c w) as [[x|e] w1]; simpl in *; [|exact Hc].
  rewrite (Hk x w1 key Hne). exact Hc.
Qed.

Lemma touches_keeps (c : M World A) : keeps_registries c -> touches_only a c.
Proof. intros H w k _. now rewrite (proj1 (H w)). Qed.

End TouchesOnly.

Lemma touches_getSessionData a : touches_only a (getSessionData a).
Proof.
  intros w k Hne. rewrite getSessionData_shape.
  destruct (JsMap.get a (sessionStore w)) as [d|]; [|reflexivity].
  destruct (oauth2Client d), (gmail d); simpl; try reflexivity;
    apply JsMapFacts.get_delete_neq; congruence.
Qed.

Lemma touches_storeSessionData a c g u uuid now :
  touches_only a (storeSessionData a c g u uuid now).
Proof.
  intros w k Hne. rewrite GmailServerFacts.storeSessionData_shape. simpl.
  apply JsMapFacts.get_set_neq. congruence.
Qed.

Lemma touches_getSessionOAuthClient env a store :
  touches_only a (getSessionOAuthClient env a store).
Proof.
  unfold getSessionOAuthClient.
  destruct (match store with Some s => store_oauth2Client s | None => None end);
    [apply touches_ret|].
  apply touches_bind; [apply touches_getSessionData|].
  intros [sd|]; [apply touches_ret|].
  apply touches_keeps, keeps_loadCredentials.
Qed.

(** X12.  A tool call that carries no token, whatever the tool and whatever
    is on disk, changes no session record other than the caller's own: the
    records of all other sessions are exactly as before the call.  A call
    without request context acts as session [auth-default]. *)
Theorem tokenless_call_leaves_other_sessions_alone :
  forall (env : ProcessEnv) (requestContext : option RequestCtx) (name : string)
         (args : option ToolArgs) (uuid : string) (now : Z) (w : World) (k : string),
    (forall a, args = Some a -> truthy (arg_sessionToken a) = false) ->
    k <> auth_id_of requestContext ->
    JsMap.get k (sessionStore (snd (callTool_gate env requestContext name args uuid now w)))
    = JsMap.get k (sessionStore w).
Proof.
  intros env rc name args uuid now w k Hargs Hk.
  revert w k Hk. change (touches_only (auth_id_of rc)
                           (callTool_gate env rc name args uuid now)).
  unfold callTool_gate. fold (auth_id_of rc).
  apply touches_bind; [apply touches_getSessionData|]. intros existing.
  destruct (is_auth_tool name); [apply touches_ret|].
  destruct args as [a|]; [|apply touches_throw].
  rewrite (Hargs a eq_refl).
  assert (Hfallback : forall store : AppContext,
    touches_only (auth_id_of rc)
      (sessionData <- getSessionData (auth_id_of rc) ;;
       match sessionData with
       | Some sd =>
           ret (gate_check (auth_id_of rc) (oauth2Client sd) (gmail sd)
                  {| store_gmail := gmail sd; store_oauth2Client := oauth2Client sd;
                     store_sessionId := Some (auth_id_of rc); store_userId := userId sd;
                     store_mcpSessionId := store_mcpSessionId store;
                     store_authSessionId := store_authSessionId store |})
       | None =>
           loaded <- getSessionOAuthClient env (auth_id_of rc) (Some store) ;;
           match loaded with
           | Some client =>
               storeSessionData (auth_id_of rc) client {| gmail_auth := client |}
                 None uuid now ;;;
               ret (gate_check (auth_id_of rc) (Some client)
                      (Some {| gmail_auth := client |})
                      {| store_gmail := Some {| gmail_auth := client |};
                         store_oauth2Client := Some client;
                         store_sessionId := Some (auth_id_of rc);
                         store_userId := store_userId store;
                         store_mcpSessionId := store_mcpSessionId store;
                         store_authSessionId := store_authSessionId store |})
           | None => ret (gate_check (auth_id_of rc) None (store_gmail store) store)
           end
       end)).
  { intros store.
    apply touches_bind; [apply touches_getSessionData|]. intros [sd|];
      [apply touches_ret|].
    apply touches_bind; [apply touches_getSessionOAuthClient|]. intros [client|];
      [|apply touches_ret].
    apply touches_bind; [apply touches_storeSessionData|]. intros _.
    apply touches_ret. }
  cbv iota.
  destruct existing as [d|]; cbv beta iota zeta; simpl store_oauth2Client;
    simpl store_gmail.
  - destruct (oauth2Client d) as [c|]; [destruct (gmail d) as [g|]|];
      [apply touches_ret|apply Hfallback|apply Hfallback].
  - apply Hfallback.
Qed.

Lemma tokenless_call_leaves_other_sessions_alone_witness :
  JsMap.get "auth-A"
    (sessionStore (snd (callTool_gate docker_env (Some request_of_B) "list_email_labels"
                          (Some no_token) "33333333-3333-4333-8333-333333333333" 5000
                          after_A_authenticated)))
  = JsMap.get "auth-A" (sessionStore after_A_authenticated).
Proof.
  apply tokenless_call_leaves_other_sessions_alone.
  - intros a [= <-]. reflexivity.
  - vm_compute. discriminate.
Defined.

(** X13.  When neither the keys path of a session nor the working directory
    holds an OAuth keys file, [loadCredentials] for that session returns
    [null] and writes no file. *)
Theorem loadCredentials_null_without_keys_file :
  forall (env : ProcessEnv) (s : string) (w : World),
    s <> "" ->
    JsMap.get
      (or_else (GMAIL_OAUTH_PATH env)
         (path_join (path_join (path_join (homedir env) ".gmail-mcp") s)
                    "gcp-oauth.keys.json"))
      (files w) = None ->
    JsMap.get (path_join (cwd env) "gcp-oauth.keys.json") (files w) = None ->
    fst (loadCredentials env None (Some s) w) = Returned None
    /\ files (snd (loadCredentials env None (Some s) w)) = files w.
Proof.
  intros env s w Hs Hkeys Hlocal.
  unfold loadCredentials, try_catch, updatePaths, readJsonSync, copyFileSync, mkdirSync,
    existsSync, JsMap.has.
  run_M. rewrite (GmailServerFacts.eqb_empty_false s Hs). simpl.
  repeat (match goal with
          | |- context [if ?c then _ else _] => destruct c eqn:?
          end; simpl; rewrite ?Hlocal, ?Hkeys; simpl);
    split; reflexivity.
Qed.

Lemma loadCredentials_null_without_keys_file_witness :
  fst (loadCredentials TokenScenarios.plain_env None (Some "auth-B")
         (TokenScenarios.initial_world TokenScenarios.plain_env)) = Returned None
  /\ files (snd (loadCredentials TokenScenarios.plain_env None (Some "auth-B")
                   (TokenScenarios.initial_world TokenScenarios.plain_env)))
     = files (TokenScenarios.initial_world TokenScenarios.plain_env).
Proof.
  apply loadCredentials_null_without_keys_file;
    [discriminate | reflexivity | reflexivity].
Defined.

Lemma transport_onclose_shape (t : string) (x : HttpState) :
  t <> "" ->
  transport_onclose (Some t) x =
    (Returned tt,
     {| world :=
          with_registries
            (JsMap.delete ("auth-" ++ t) (sessionStore (world x)))
            (match JsMap.get ("auth-" ++ t) (sessionStore (world x)) with
             | Some sd =>
                 if truthy (sessionToken sd)
                 then JsMap.delete (or_else (sessionToken sd) "") (tokenToSessionMap (world x))
                 else tokenToSessionMap (world x)
             | None => tokenToSessionMap (world x)
             end)
            (world x);
        streamable := JsMap.delete t (streamable x) |}).
Proof.
  intros Ht. unfold transport_onclose.
  assert (E : truthy (Some t) = true).
  { simpl. now rewrite (GmailServerFacts.eqb_empty_false t Ht). }
  rewrite E.
  assert (Eo : or_else (Some t) "" = t).
  { simpl. now rewrite (GmailServerFacts.eqb_empty_false t Ht). }
  rewrite Eo.
  unfold bind, get_state.
  destruct (JsMap.get ("auth-" ++ t) (sessionStore (world x))) as [sd|];
    [destruct (truthy (sessionToken sd))|]; reflexivity.
Qed.

(** X14.  When the transport of MCP session [t] closes, the record of
    [auth-t] and the entry of [t] in the transport table are gone, and the
    token stored in that record no longer validates.  The records and
    transports of all other sessions are as before.  Only the token the record
    holds at that moment is taken out of the token table: every other token,
    an earlier one of the same session included, stays where it is. *)
Theorem transport_onclose_forgets_session :
  forall (t : string) (x : HttpState) (now : Z),
    t <> "" ->
    fst (transport_onclose (Some t) x) = Returned tt
    /\ JsMap.get ("auth-" ++ t) (sessionStore (world (snd (transport_onclose (Some t) x)))) = None
    /\ JsMap.get t (streamable (snd (transport_onclose (Some t) x))) = None
    /\ (forall sd tok,
          JsMap.get ("auth-" ++ t) (sessionStore (world x)) = Some sd ->
          sessionToken sd = Some tok -> tok <> "" ->
          validateSessionToken tok now (world (snd (transport_onclose (Some t) x)))
          = (Returned None, world (snd (transport_onclose (Some t) x))))
    /\ (forall k, k <> "auth-" ++ t ->
          JsMap.get k (sessionStore (world (snd (transport_onclose (Some t) x))))
          = JsMap.get k (sessionStore (world x)))
    /\ (forall k, k <> t ->
          JsMap.get k (streamable (snd (transport_onclose (Some t) x)))
          = JsMap.get k (streamable x))
    /\ (forall tok,
          (forall sd, JsMap.get ("auth-" ++ t) (sessionStore (world x)) = Some sd ->
                      sessionToken sd <> Some tok) ->
          JsMap.get tok (tokenToSessionMap (world (snd (transport_onclose (Some t) x))))
          = JsMap.get tok (tokenToSessionMap (world x))).
Proof.
  intros t x now Ht. rewrite (transport_onclose_shape t x Ht). simpl.
  split; [reflexivity|].
  split; [apply JsMapFacts.get_delete_eq|].
  split; [apply JsMapFacts.get_delete_eq|].
  rewrite <- !and_assoc. split.
  2:{ intros tok Hother.
      destruct (JsMap.get _ (sessionStore (world x))) as [sd|];
        [|reflexivity].
      specialize (Hother sd eq_refl).
      destruct (sessionToken sd) as [s|]; simpl; [|reflexivity].
      destruct (String.eqb s "") eqn:Es; simpl; [reflexivity|].
      apply JsMapFacts.get_delete_neq. congruence. }
  rewrite and_assoc.
  split.
  - intros sd tok Hsd Htok Hne. apply GmailServerFacts.validate_unknown. simpl.
    rewrite Hsd, Htok.
    assert (E : truthy (Some tok) = true).
    { simpl. now rewrite (GmailServerFacts.eqb_empty_false tok Hne). }
    rewrite E.
    assert (Eo : or_else (Some tok) "" = tok).
    { simpl. now rewrite (GmailServerFacts.eqb_empty_false tok Hne). }
    rewrite Eo. apply JsMapFacts.get_delete_eq.
  - split; intros k Hk; apply JsMapFacts.get_delete_neq; congruence.
Qed.

Lemma transport_onclose_forgets_session_witness :
  JsMap.get "auth-A"
    (sessionStore (world (snd (transport_onclose (Some "A")
       {| world := TokenScenarios.issued_once; streamable := [("A", tt)] |})))) = None
  /\ fst (validateSessionToken TokenScenarios.first_token 2000
            (world (snd (transport_onclose (Some "A")
               {| world := TokenScenarios.issued_once; streamable := [("A", tt)] |}))))
     = Returned None.
Proof.
  destruct (transport_onclose_forgets_session "A"
              {| world := TokenScenarios.issued_once; streamable := [("A", tt)] |} 2000
              ltac:(discriminate)) as (_ & H1 & _ & H2 & _).
  split; [exact H1|].
  rewrite (H2 (TokenScenarios.issued_record (TokenScenarios.client_of "A")
                 (TokenScenarios.gmail_of "A") None TokenScenarios.first_token 1000)
              TokenScenarios.first_token eq_refl eq_refl);
    [reflexivity | vm_compute; discriminate].
Defined.

(** X15.  A token issued for session [a] is accepted by
    [authenticate_with_token] from any request context for 24 hours: the
    reply names session [a] and the expiry [t0 + 24h], the caller's context
    takes over the clients, the user and the session id of [a] while keeping
    its own MCP and auth session ids, and the registries are left as they
    are. *)
Theorem token_authenticates_from_any_context :
  forall (a : string) (client : OAuth2Client) (g : Gmail) (uid : option string)
         (uuid : string) (t0 now : Z) (store : option AppContext) (w : World),
    a <> "" ->
    now - t0 <= maxAge ->
    tool_authenticate_with_token store (generateSessionToken uuid t0) now
      (snd (storeSessionData a client g uid uuid t0 w))
    = (Returned
         (TokenAuthOk uid a (Some (t0 + 24 * 60 * 60 * 1000))
            (match store with
             | Some s =>
                 Some {| store_gmail := Some g; store_oauth2Client := Some client;
                         store_sessionId := Some a; store_userId := uid;
                         store_mcpSessionId := store_mcpSessionId s;
                         store_authSessionId := store_authSessionId s |}
             | None => None
             end)),
       snd (storeSessionData a client g uid uuid t0 w)).
Proof.
  intros a client g uid uuid t0 now store w Ha Hage.
  destruct (GmailServerFacts.issued_bound a client g uid uuid t0 w Ha)
    as (H1 & _ & H2 & H3).
  unfold tool_authenticate_with_token, bind.
  rewrite (GmailServerFacts.validate_in_time _ now _ a _ H1 Ha H2 H3 Hage).
  destruct store; reflexivity.
Qed.

Lemma token_authenticates_from_any_context_witness :
  fst (tool_authenticate_with_token None TokenScenarios.first_token (1000 + TokenScenarios.day)
         TokenScenarios.issued_once)
  = Returned (TokenAuthOk None "auth-A" (Some (1000 + 24 * 60 * 60 * 1000)) None).
Proof.
  unfold TokenScenarios.issued_once, TokenScenarios.first_token.
  rewrite (token_authenticates_from_any_context "auth-A" (TokenScenarios.client_of "A")
             (TokenScenarios.gmail_of "A") None
             "11111111-1111-4111-8111-111111111111" 1000 (1000 + TokenScenarios.day) None
             (TokenScenarios.initial_world TokenScenarios.plain_env));
    [reflexivity | discriminate | vm_compute; discriminate].
Defined.

Lemma or_else_nonempty (o : option string) (d : string) : d <> "" -> or_else o d <> "".
Proof.
  intros Hd. destruct o as [s|]; simpl; [|exact Hd].
  destruct (String.eqb s "") eqn:E; [exact Hd|].
  intros ->. discriminate.
Qed.

Lemma user_session_of_nonempty uid store a : a <> "" -> user_session_of uid store a <> "".
Proof. intros Ha. unfold user_session_of. now do 2 apply or_else_nonempty. Qed.

Lemma updatePaths_session (env : ProcessEnv) (sp s : string) (w : World) :
  s <> "" ->
  updatePaths env sp (Some s) w =
    (Returned tt,
     with_paths (path_join sp s)
       (or_else (GMAIL_OAUTH_PATH env) (path_join (path_join sp s) "gcp-oauth.keys.json"))
       (or_else (GMAIL_CREDENTIALS_PATH env) (path_join (path_join sp s) "credentials.json"))
       w).
Proof.
  intros Hs. unfold updatePaths, modify. simpl.
  now rewrite (GmailServerFacts.eqb_empty_false s Hs).
Qed.

(** X16.  [check_authentication] completes a pending authentication exactly
    once.  With an entry pending for the session and the credentials file in
    place, the call closes the callback server, removes the entry, files a
    record for the session with the pending OAuth client and a fresh token
    bound to it; any further call for that session, whatever its arguments,
    answers that nothing is pending. *)
Theorem check_authentication_completes_once :
  forall (env : ProcessEnv) (a : string) (store : option AppContext) (args : CheckArgs)
         (uuid : string) (now : Z) (x : AuthState) (pa : PendingAuth),
    a <> "" ->
    JsMap.get a (pendingAuthStore x) = Some pa ->
    existsSync
      (or_else (GMAIL_CREDENTIALS_PATH env)
         (path_join (path_join (ck_storagePath args)
                               (user_session_of (ck_userId args) store a))
                    "credentials.json"))
      (auth_world x) = true ->
    (exists st, fst (tool_check_authentication env a store args uuid now x)
                = Returned (AuthenticationCompleted (generateSessionToken uuid now) st))
    /\ JsMap.get a (pendingAuthStore (snd (tool_check_authentication env a store args uuid now x)))
       = None
    /\ closed_servers (snd (tool_check_authentication env a store args uuid now x))
       = (closed_servers x ++ [a])%list
    /\ TokenScenarios.bound_to (generateSessionToken uuid now)
         (auth_world (snd (tool_check_authentication env a store args uuid now x))) a
         (TokenScenarios.issued_record (pa_oauth2Client pa)
            {| gmail_auth := pa_oauth2Client pa |} (ck_userId args)
            (generateSessionToken uuid now) now)
    /\ (forall env' store' args' uuid' now',
          fst (tool_check_authentication env' a store' args' uuid' now'
                 (snd (tool_check_authentication env a store args uuid now x)))
          = Returned (NoPendingAuthentication a)).
Proof.
  intros env a store args uuid now x pa Ha Hp Hex.
  pose proof (user_session_of_nonempty (ck_userId args) store a Ha) as Hu.
  assert (E : tool_check_authentication env a store args uuid now x =
    (Returned (AuthenticationCompleted (generateSessionToken uuid now)
       (match store with
        | Some s =>
            Some {| store_gmail := Some {| gmail_auth := pa_oauth2Client pa |};
                    store_oauth2Client := Some (pa_oauth2Client pa);
                    store_sessionId := Some a;
                    store_userId := ck_userId args;
                    store_mcpSessionId := store_mcpSessionId s;
                    store_authSessionId := store_authSessionId s |}
        | None => None
        end)),
     {| auth_world :=
          snd (storeSessionData a (pa_oauth2Client pa) {| gmail_auth := pa_oauth2Client pa |}
                 (ck_userId args) uuid now
                 (snd (updatePaths env (ck_storagePath args)
                         (Some (user_session_of (ck_userId args) store a)) (auth_world x))));
        pendingAuthStore := JsMap.delete a (pendingAuthStore x);
        closed_servers := (closed_servers x ++ [a])%list |})).
  { unfold tool_check_authentication, on_auth_world.
    unfold bind at 1.
    rewrite (updatePaths_session env _ _ (auth_world x) Hu).
    unfold bind at 1, get_state. cbn [pendingAuthStore auth_world].
    rewrite Hp.
    unfold existsSync in *. cbn [CREDENTIALS_PATH with_paths files dirs].
    rewrite Hex. cbn [negb].
    reflexivity. }
  rewrite E. cbn [fst snd pendingAuthStore closed_servers auth_world].
  split; [eauto|].
  split; [apply JsMapFacts.get_delete_eq|].
  split; [reflexivity|].
  split; [apply GmailServerFacts.issued_bound; exact Ha|].
  intros env' store' args' uuid' now'.
  pose proof (user_session_of_nonempty (ck_userId args') store' a Ha) as Hu'.
  unfold tool_check_authentication, on_auth_world.
  unfold bind at 1.
  rewrite (updatePaths_session env' _ _ _ Hu').
  unfold bind at 1, get_state. cbn [pendingAuthStore auth_world].
  now rewrite JsMapFacts.get_delete_eq.
Qed.


(** X17.  A [check_authentication] call that completes nothing (no entry
    pending, or the credentials file not yet written) answers accordingly and
    leaves the pending entries, the callback servers, both registries and the
    disk as they are.  It has one effect all the same: the module-wide
    configuration directory now points at the caller's storage path. *)
Theorem check_authentication_without_completion :
  forall (env : ProcessEnv) (a : string) (store : option AppContext) (args : CheckArgs)
         (uuid : string) (now : Z) (x : AuthState),
    a <> "" ->
    JsMap.get a (pendingAuthStore x) = None
    \/ existsSync
         (or_else (GMAIL_CREDENTIALS_PATH env)
            (path_join (path_join (ck_storagePath args)
                                  (user_session_of (ck_userId args) store a))
                       "credentials.json"))
         (auth_world x) = false ->
    fst (tool_check_authentication env a store args uuid now x)
    = Returned (match JsMap.get a (pendingAuthStore x) with
                | None => NoPendingAuthentication a
                | Some _ => NotYetComplete
                end)
    /\ pendingAuthStore (snd (tool_check_authentication env a store args uuid now x))
       = pendingAuthStore x
    /\ closed_servers (snd (tool_check_authentication env a store args uuid now x))
       = closed_servers x
    /\ sessionStore (auth_world (snd (tool_check_authentication env a store args uuid now x)))
       = sessionStore (auth_world x)
    /\ tokenToSessionMap
         (auth_world (snd (tool_check_authentication env a store args uuid now x)))
       = tokenToSessionMap (auth_world x)
    /\ files (auth_world (snd (tool_check_authentication env a store args uuid now x)))
       = files (auth_world x)
    /\ CONFIG_DIR (auth_world (snd (tool_check_authentication env a store args uuid now x)))
       = path_join (ck_storagePath args) (user_session_of (ck_userId args) store a).
Proof.
  intros env a store args uuid now x Ha H.
  pose proof (user_session_of_nonempty (ck_userId args) store a Ha) as Hu.
  assert (E : tool_check_authentication env a store args uuid now x =
    (Returned (match JsMap.get a (pendingAuthStore x) with
               | None => NoPendingAuthentication a
               | Some _ => NotYetComplete
               end),
     {| auth_world :=
          snd (updatePaths env (ck_storagePath args)
                 (Some (user_session_of (ck_userId args) store a)) (auth_world x));
        pendingAuthStore := pendingAuthStore x;
        closed_servers := closed_servers x |})).
  { unfold tool_check_authentication, on_auth_world.
    unfold bind at 1.
    rewrite (updatePaths_session env _ _ (auth_world x) Hu).
    unfold bind at 1, get_state. cbn [pendingAuthStore auth_world].
    destruct (JsMap.get a (pendingAuthStore x)) as [pa|]; [|reflexivity].
    destruct H as [H|H]; [discriminate|].
    unfold existsSync in *. cbn [CREDENTIALS_PATH with_paths files dirs].
    rewrite H. reflexivity. }
  rewrite E, (updatePaths_session env _ _ (auth_world x) Hu).
  repeat split; reflexivity.
Qed.

Lemma check_authentication_completes_once_witness :
  JsMap.get "auth-A"
    (pendingAuthStore (snd (tool_check_authentication plain_env "auth-A" None
                              MoreScenarios.check_args_A
                              "11111111-1111-4111-8111-111111111111" 1000
                              MoreScenarios.consented_A))) = None
  /\ closed_servers (snd (tool_check_authentication plain_env "auth-A" None
                             MoreScenarios.check_args_A
                             "11111111-1111-4111-8111-111111111111" 1000
                             MoreScenarios.consented_A)) = ["auth-A"].
Proof.
  destruct (check_authentication_completes_once plain_env "auth-A" None
              MoreScenarios.check_args_A "11111111-1111-4111-8111-111111111111" 1000
              MoreScenarios.consented_A MoreScenarios.pending_A
              ltac:(discriminate) eq_refl eq_refl) as (_ & H1 & H2 & _).
  split; [exact H1|exact H2].
Defined.

Lemma check_authentication_without_completion_witness :
  fst (tool_check_authentication plain_env "auth-A" None MoreScenarios.check_args_A
         "11111111-1111-4111-8111-111111111111" 1000 MoreScenarios.awaiting_A)
  = Returned NotYetComplete
  /\ pendingAuthStore
       (snd (tool_check_authentication plain_env "auth-A" None MoreScenarios.check_args_A
               "11111111-1111-4111-8111-111111111111" 1000 MoreScenarios.awaiting_A))
     = pendingAuthStore MoreScenarios.awaiting_A.
Proof.
  destruct (check_authentication_without_completion plain_env "auth-A" None
              MoreScenarios.check_args_A "11111111-1111-4111-8111-111111111111" 1000
              MoreScenarios.awaiting_A ltac:(discriminate) (or_intror eq_refl))
    as (H1 & H2 & _).
  split; [exact H1|exact H2].
Defined.







End GmailServerMoreFacts.

(** ** Batch processing *)

Module BatchesFacts.

Import Batches.

Lemma js_slice_window {A : Type} (pre rest : list A) (batchSize : Z) :
  1 <= batchSize ->
  js_slice (Z.of_nat (length pre)) (Z.of_nat (length pre) + batchSize) (pre ++ rest)%list
  = firstn (Z.to_nat batchSize) rest.
Proof.
  intros Hb. unfold js_slice.
  rewrite length_app, Nat2Z.inj_add.
  destruct (Z.ltb_spec (Z.of_nat (length pre)) 0) as [Hneg|_]; [lia|].
  destruct (Z.ltb_spec (Z.of_nat (length pre) + batchSize) 0) as [Hneg|_]; [lia|].
  rewrite (Z.min_l (Z.of_nat (length pre))
             (Z.of_nat (length pre) + Z.of_nat (length rest))) by lia.
  rewrite Nat2Z.id, skipn_app, skipn_all, Nat.sub_diag. simpl.
  destruct (Z.le_ge_cases batchSize (Z.of_nat (length rest))) as [Hle|Hge].
  - rewrite Z.min_l by lia. f_equal. f_equal. lia.
  - rewrite Z.min_r by lia.
    replace (Z.to_nat (Z.of_nat (length pre) + Z.of_nat (length rest)
                       - Z.of_nat (length pre))) with (length rest) by lia.
    rewrite firstn_all. symmetry. apply firstn_all2. lia.
Qed.

Lemma batches_loop_done {T U W : Type} (processFn : list T -> M W (list U))
  (fuel : nat) (items : list T) (batchSize i : Z) (acc : BatchResult) (w : W) :
  Z.of_nat (length items) <= i ->
  batches_loop processFn fuel items batchSize i acc w = (Returned (Some acc), w).
Proof.
  intros Hi. destruct fuel; simpl;
    destruct (Z.ltb_spec i (Z.of_nat (length items))); try lia; reflexivity.
Qed.

Lemma retry_items_returns {T U W : Type} (processFn : list T -> M W (list U)) :
  forall (batch : list T) (acc : BatchResult) (w : W),
    exists acc' w', retry_items processFn batch acc w = (Returned acc', w').
Proof.
  induction batch as [|x rest IH]; intros acc w; simpl.
  - exists acc, w. reflexivity.
  - unfold bind at 1, try_catch, bind, ret.
    destruct (processFn [x] w) as [[r|e] w1]; apply IH.
Qed.

Lemma batch_step_returns {T U W : Type} (processFn : list T -> M W (list U))
  (batch : list T) (acc : BatchResult) (w : W) :
  exists acc' w',
    try_catch
      (results <- processFn batch ;;
       ret {| successes := (successes acc ++ results)%list; failures := failures acc |})
      (fun _ => retry_items processFn batch acc) w = (Returned acc', w').
Proof.
  unfold try_catch, bind, ret.
  destruct (processFn batch w) as [[r|e] w1]; [do 2 eexists; reflexivity|].
  apply retry_items_returns.
Qed.

(** X21.  A negative batch size passes [batchSize || 50] unchanged, and with
    it the loop of [processBatches] never ends on a non-empty list: the index
    only moves away from the length.  However many iterations are allowed,
    and whatever the operation does, no result is returned. *)
Theorem negative_batchSize_never_returns :
  forall {T U W : Type} (processFn : list T -> M W (list U))
         (fuel : nat) (items : list T) (n : Z) (w : W),
    n < 0 ->
    items <> [] ->
    fst (processBatches processFn fuel items (effective_batchSize (Some n)) w)
    = Returned None.
Proof.
  intros T U W processFn fuel items n w Hn Hitems.
  assert (E : effective_batchSize (Some n) = n).
  { unfold effective_batchSize. destruct (Z.eqb_spec n 0); [lia|reflexivity]. }
  rewrite E. unfold processBatches.
  assert (Hlen : 0 < Z.of_nat (length items)).
  { destruct items; [congruence|simpl length; lia]. }
  assert (G : forall k i acc w, i <= 0 ->
            fst (batches_loop processFn k items n i acc w) = Returned None).
  { induction k as [|k IH]; intros i acc w0 Hi; simpl;
      destruct (Z.ltb_spec i (Z.of_nat (length items))); try lia; [reflexivity|].
    unfold bind at 1.
    destruct (batch_step_returns processFn (js_slice i (i + n) items) acc w0)
      as (acc' & w' & Estep).
    rewrite Estep. apply IH. lia. }
  apply G. lia.
Qed.

Lemma negative_batchSize_never_returns_witness :
  fst (batch_tool (fun _ => true) (fun _ => "") 1000 ["m1"; "m2"] (Some (-1)) [])
  = Returned None.
Proof.
  apply (negative_batchSize_never_returns
           (promise_all_map (gmail_request (fun _ => true) (fun _ => "")))
           1000 ["m1"; "m2"] (-1) []); [lia|discriminate].
Defined.

Section Isolation.

Context {T U W : Type}.
Variable call : T -> M W U.
Variable good : T -> bool.
Variable f : T -> U.
Variable err : T -> string.
Hypothesis call_good : forall x w, good x = true -> fst (call x w) = Returned (f x).
Hypothesis call_bad : forall x w, good x = false -> fst (call x w) = Thrown (err x).

Lemma promise_all_good :
  forall (batch : list T) (w : W),
    forallb good batch = true ->
    fst (promise_all_map call batch w) = Returned (map f batch).
Proof.
  induction batch as [|x rest IH]; intros w Hall; simpl; [reflexivity|].
  simpl in Hall. apply andb_prop in Hall. destruct Hall as [Hx Hrest].
  pose proof (call_good x w Hx) as Hc.
  destruct (call x w) as [[r|e] w1]; simpl in Hc; [|discriminate].
  injection Hc as ->.
  pose proof (IH w1 Hrest) as Hr.
  destruct (promise_all_map call rest w1) as [[rs|e] w2]; simpl in Hr; [|discriminate].
  injection Hr as ->. reflexivity.
Qed.

Lemma promise_all_bad :
  forall (batch : list T) (w : W),
    forallb good batch = false ->
    exists e, fst (promise_all_map call batch w) = Thrown e.
Proof.
  induction batch as [|x rest IH]; intros w Hall; simpl; [discriminate|].
  simpl in Hall.
  destruct (good x) eqn:Hx.
  - pose proof (call_good x w Hx) as Hc.
    destruct (call x w) as [[r|e] w1]; simpl in Hc; [|discriminate].
    simpl in Hall. destruct (IH w1 Hall) as [e He].
    destruct (promise_all_map call rest w1) as [[rs|e'] w2]; simpl in He;
      [discriminate|]. simpl. eauto.
  - pose proof (call_bad x w Hx) as Hc.
    destruct (call x w) as [[r|e] w1]; simpl in Hc; [discriminate|].
    simpl. eauto.
Qed.







End Isolation.



Section Journal.

Variable accepts : string -> bool.
Variable reason : string -> string.

Lemma promise_all_journal :
  forall (batch : list string) (journal : list string),
    snd (promise_all_map (gmail_request accepts reason) batch journal)
    = (journal ++ batch)%list.
Proof.
  induction batch as [|x rest IH]; intros journal; simpl.
  - now rewrite app_nil_r.
  - pose proof (IH (journal ++ [x])%list) as Hr.
    destruct (accepts x).
    + destruct (promise_all_map _ rest _) as [[rs|e] j2]; simpl in *;
        rewrite Hr, <- app_assoc; reflexivity.
    + simpl. rewrite Hr, <- app_assoc. reflexivity.
Qed.

Lemma retry_items_journal :
  forall (batch : list string) (acc : BatchResult) (journal : list string),
    snd (retry_items (promise_all_map (gmail_request accepts reason)) batch acc journal)
    = (journal ++ batch)%list.
Proof.
  induction batch as [|x rest IH]; intros acc journal.
  - simpl. now rewrite app_nil_r.
  - cbn [retry_items]. unfold bind, try_catch, ret. simpl.
    destruct (accepts x); rewrite IH, <- app_assoc; reflexivity.
Qed.

Lemma request_accepted (x : string) (w : list string) :
  accepts x = true -> fst (gmail_request accepts reason x w) = Returned (x, true).
Proof. intros Hx. unfold gmail_request. simpl. now rewrite Hx. Qed.

Lemma request_refused (x : string) (w : list string) :
  accepts x = false -> fst (gmail_request accepts reason x w) = Thrown (reason x).
Proof. intros Hx. unfold gmail_request. simpl. now rewrite Hx. Qed.

Lemma batch_step_journal (batch : list string) (acc : BatchResult) (journal : list string) :
  snd (try_catch
         (results <- promise_all_map (gmail_request accepts reason) batch ;;
          ret {| successes := (successes acc ++ results)%list; failures := failures acc |})
         (fun _ => retry_items (promise_all_map (gmail_request accepts reason)) batch acc)
         journal)
  = (journal ++ (if forallb accepts batch then batch else batch ++ batch))%list.
Proof.
  unfold try_catch, bind, ret.
  pose proof (promise_all_journal batch journal) as Hj.
  destruct (forallb accepts batch) eqn:Hall.
  - pose proof (promise_all_good (gmail_request accepts reason) accepts
                  (fun id => (id, true)) request_accepted batch journal Hall) as Hp.
    destruct (promise_all_map _ batch journal) as [[r|e] j1]; simpl in *;
      [exact Hj|discriminate].
  - destruct (promise_all_bad (gmail_request accepts reason) accepts
                (fun id => (id, true)) reason request_accepted request_refused
                batch journal Hall) as [e Hp].
    destruct (promise_all_map _ batch journal) as [[r|e'] j1]; simpl in *;
      [discriminate|].
    rewrite retry_items_journal. subst j1. now rewrite <- app_assoc.
Qed.

Lemma batches_loop_journal (batchSize : Z) :
  1 <= batchSize ->
  forall (fuel : nat) (pre rest : list string) (i : Z) (acc : BatchResult)
         (journal : list string),
    (length rest <= fuel)%nat ->
    i = Z.of_nat (length pre) \/ (rest = [] /\ Z.of_nat (length pre) <= i) ->
    exists m : nat,
      Z.of_nat (length rest) <= Z.of_nat m * batchSize
      /\ (Z.of_nat m - 1) * batchSize < Z.of_nat (length rest)
      /\ snd (batches_loop (promise_all_map (gmail_request accepts reason)) fuel
                (pre ++ rest)%list batchSize i acc journal)
         = (journal
            ++ concat (map (fun k =>
                        let b := firstn (Z.to_nat batchSize)
                                   (skipn (k * Z.to_nat batchSize) rest) in
                        if forallb accepts b then b else (b ++ b)%list)
                       (seq 0 m)))%list.
Proof.
  intros Hb. induction fuel as [|fuel IH]; intros pre rest i acc journal Hfuel Hi.
  - assert (rest = []) by (destruct rest; [reflexivity|simpl in Hfuel; lia]). subst rest.
    exists 0%nat. rewrite batches_loop_done by (rewrite app_nil_r; lia).
    cbn [snd seq map concat length]. rewrite app_nil_r.
      split; [lia|]. split; [lia|reflexivity].
  - destruct Hi as [Hi|[Hnil Hi]].
    2:{ subst rest. exists 0%nat. rewrite batches_loop_done by (rewrite app_nil_r; lia).
        cbn [snd seq map concat length]. rewrite app_nil_r.
      split; [lia|]. split; [lia|reflexivity]. }
    destruct rest as [|x rest'].
    { exists 0%nat. rewrite batches_loop_done by (rewrite app_nil_r; lia).
      cbn [snd seq map concat length]. rewrite app_nil_r.
      split; [lia|]. split; [lia|reflexivity]. }
    subst i. cbn [batches_loop].
    destruct (Z.ltb_spec (Z.of_nat (length pre))
                (Z.of_nat (length (pre ++ x :: rest')%list))) as [_|Hge].
    2:{ rewrite length_app in Hge. simpl in Hge. lia. }
    rewrite (js_slice_window pre (x :: rest') batchSize Hb).
    unfold bind at 1.
    pose proof (batch_step_journal (firstn (Z.to_nat batchSize) (x :: rest')) acc journal)
      as Hs.
    destruct (batch_step_returns (promise_all_map (gmail_request accepts reason))
                (firstn (Z.to_nat batchSize) (x :: rest')) acc journal)
      as (acc1 & j1 & Estep).
    rewrite Estep in Hs |- *. simpl in Hs. subst j1.
    set (rest := (x :: rest')) in *.
    set (n := Z.to_nat batchSize) in *.
    assert (Hsplit : (pre ++ rest = (pre ++ firstn n rest) ++ skipn n rest)%list).
    { now rewrite <- app_assoc, firstn_skipn. }
    rewrite Hsplit.
    destruct (IH (pre ++ firstn n rest)%list (skipn n rest)
                (Z.of_nat (length pre) + batchSize) acc1
                (journal ++ (if forallb accepts (firstn n rest)
                             then firstn n rest
                             else firstn n rest ++ firstn n rest))%list)
      as (m & Hm1 & Hm2 & Hrun).
    + rewrite length_skipn. subst rest n. simpl length in *. lia.
    + rewrite length_app, length_firstn, Nat2Z.inj_add.
      destruct (Nat.le_gt_cases n (length rest)) as [Hle|Hgt].
      * left. rewrite Nat.min_l by exact Hle. subst n. lia.
      * right. split; [apply skipn_all2; lia|]. rewrite Nat.min_r by lia. subst n. lia.
    + exists (S m). rewrite length_skipn in Hm1, Hm2.
      assert (Hlen : (1 <= length rest)%nat) by (subst rest; simpl; lia).
      assert (Hn : Z.of_nat n = batchSize) by (subst n; lia).
      assert (Hbounds : Z.of_nat (length rest) <= Z.of_nat (S m) * batchSize
                        /\ (Z.of_nat (S m) - 1) * batchSize < Z.of_nat (length rest)).
      { rewrite Nat2Z.inj_succ.
        replace ((Z.succ (Z.of_nat m) - 1) * batchSize) with (Z.of_nat m * batchSize)
          by ring.
        replace (Z.succ (Z.of_nat m) * batchSize)
          with (Z.of_nat m * batchSize + batchSize) by ring.
        replace ((Z.of_nat m - 1) * batchSize) with (Z.of_nat m * batchSize - batchSize)
          in Hm2 by ring.
        destruct (Nat.le_gt_cases n (length rest)) as [Hle|Hgt].
        - rewrite Nat2Z.inj_sub in Hm1, Hm2 by exact Hle. lia.
        - replace (length rest - n)%nat with 0%nat in Hm1, Hm2 by lia.
          destruct m as [|m'].
          + change (Z.of_nat 0) with 0 in *. lia.
          + rewrite Nat2Z.inj_succ in Hm2.
            replace (Z.succ (Z.of_nat m') * batchSize)
              with (Z.of_nat m' * batchSize + batchSize) in Hm2 by ring.
            assert (0 <= Z.of_nat m' * batchSize) by (apply Z.mul_nonneg_nonneg; lia).
            change (Z.of_nat 0) with 0 in *. lia. }
      split; [apply Hbounds|]. split; [apply Hbounds|].
      rewrite Hrun. cbn [seq map concat]. rewrite <- seq_shift, map_map.
      cbn [Nat.mul skipn]. rewrite <- app_assoc. f_equal. f_equal. f_equal.
      apply map_ext. intros k.
      replace (n + k * n)%nat with (k * n + n)%nat by lia.
      now rewrite skipn_skipn.
Qed.

End Journal.

(** X20.  The requests a batch tool makes.  The ids are cut into batches of
    [batchSize], the [k]-th batch starting at index [k * batchSize]; there
    are just enough batches to cover the list.  Every id of a batch is
    requested once, in order; when the service refuses one of them, every id
    of that batch is requested a second time, those already accepted
    included. *)
Theorem batch_tool_requests :
  forall (accepts : string -> bool) (reason : string -> string)
         (messageIds : list string) (batchSize : Z) (journal : list string),
    1 <= batchSize ->
    exists m : nat,
      Z.of_nat (length messageIds) <= Z.of_nat m * batchSize
      /\ (Z.of_nat m - 1) * batchSize < Z.of_nat (length messageIds)
      /\ snd (batch_tool accepts reason (length messageIds) messageIds (Some batchSize)
                journal)
         = (journal
            ++ concat (map (fun k =>
                        let b := firstn (Z.to_nat batchSize)
                                   (skipn (k * Z.to_nat batchSize) messageIds) in
                        if forallb accepts b then b else (b ++ b)%list)
                       (seq 0 m)))%list.
Proof.
  intros accepts reason messageIds batchSize journal Hb.
  unfold batch_tool, processBatches.
  assert (E : effective_batchSize (Some batchSize) = batchSize).
  { unfold effective_batchSize. destruct (Z.eqb_spec batchSize 0); [lia|reflexivity]. }
  rewrite E.
  apply (batches_loop_journal accepts reason batchSize Hb (length messageIds) []
           messageIds 0 {| successes := []; failures := [] |} journal).
  - lia.
  - left. reflexivity.
Qed.

Lemma batch_tool_requests_witness :
  exists m : nat,
    Z.of_nat (length ["m1"; "m2"; "m3"]) <= Z.of_nat m * 2
    /\ (Z.of_nat m - 1) * 2 < Z.of_nat (length ["m1"; "m2"; "m3"])
    /\ snd (batch_tool (fun id => negb (String.eqb id "m2")) (fun _ => "Not Found")
              (length ["m1"; "m2"; "m3"]) ["m1"; "m2"; "m3"] (Some 2) [])
       = ([] ++ concat (map (fun k =>
                        let b := firstn (Z.to_nat 2)
                                   (skipn (k * Z.to_nat 2) ["m1"; "m2"; "m3"]) in
                        if forallb (fun id => negb (String.eqb id "m2")) b
                        then b else (b ++ b)%list)
                       (seq 0 m)))%list.
Proof.
  apply (batch_tool_requests (fun id => negb (String.eqb id "m2")) (fun _ => "Not Found")
           ["m1"; "m2"; "m3"] 2 []).
  lia.
Defined.


End BatchesFacts.

(** ** Message parts *)

Module MimeFacts.

Import Mime.

Lemma GmailMessagePart_rect_parts (P : GmailMessagePart -> Prop) :
  (forall mimeType filename body,
      P (MessagePart mimeType filename body None)) ->
  (forall mimeType filename body ps,
      Forall P ps -> P (MessagePart mimeType filename body (Some ps))) ->
  forall p, P p.
Proof.
  intros Hleaf Hnode.
  fix IH 1. intros [mimeType filename body [ps|]]; [|apply Hleaf].
  apply Hnode. induction ps as [|p ps IHps]; constructor; [apply IH|exact IHps].
Qed.

Lemma append_nil_right (s : string) : s ++ "" = s.
Proof. induction s as [|c s IH]; simpl; [reflexivity|now rewrite IH]. Qed.

Lemma append_assoc_ (a b c : string) : (a ++ b) ++ c = a ++ (b ++ c).
Proof. induction a as [|x a IH]; simpl; [reflexivity|now rewrite IH]. Qed.

Lemma concat_empty_cons (x : string) (xs : list string) :
  String.concat "" (x :: xs) = x ++ String.concat "" xs.
Proof. destruct xs; simpl; [now rewrite append_nil_right|reflexivity]. Qed.

Lemma concat_empty_app (xs ys : list string) :
  String.concat "" (xs ++ ys) = String.concat "" xs ++ String.concat "" ys.
Proof.
  induction xs as [|x xs IH]; [reflexivity|].
  rewrite <- app_comm_cons, !concat_empty_cons, IH. now rewrite append_assoc_.
Qed.

Section Extract.

Variable decode : string -> string.

(** X22.  [extractEmailContent] returns, as text and as HTML, the
    concatenation of what the parts of the message contribute by their own
    bodies, in the order a depth-first walk meets them, parents before
    children. *)
Theorem extractEmailContent_concatenates_in_order :
  forall (messagePart : GmailMessagePart),
    text (extractEmailContent decode messagePart)
    = String.concat ""
        (map (fun p => text (own_content decode (part_mimeType p) (part_body p)))
             (preorder messagePart))
    /\ html (extractEmailContent decode messagePart)
       = String.concat ""
           (map (fun p => html (own_content decode (part_mimeType p) (part_body p)))
                (preorder messagePart)).
Proof.
  induction messagePart as [m f b|m f b ps IH] using GmailMessagePart_rect_parts.
  - simpl. split; reflexivity.
  - cbn [extractEmailContent preorder map part_mimeType part_body].
    rewrite !concat_empty_cons.
    generalize (own_content decode m b) as acc.
    induction IH as [|p ps [Hp1 Hp2] _ IHps]; intros acc.
    + simpl. rewrite !append_nil_right. split; reflexivity.
    + rewrite !map_app, !concat_empty_app.
      destruct (IHps {| text := text acc ++ text (extractEmailContent decode p);
                        html := html acc ++ html (extractEmailContent decode p) |})
        as [E1 E2].
      cbn [text html] in E1, E2.
      split.
      * etransitivity; [exact E1|]. now rewrite Hp1, append_assoc_.
      * etransitivity; [exact E2|]. now rewrite Hp2, append_assoc_.
Qed.

End Extract.

Lemma find_app_ {A : Type} (f : A -> bool) (l1 l2 : list A) :
  find f (l1 ++ l2)
  = match find f l1 with Some x => Some x | None => find f l2 end.
Proof.
  induction l1 as [|x l1 IH]; simpl; [reflexivity|].
  destruct (f x); [reflexivity|exact IH].
Qed.

(** X23.  [processAttachmentParts] lists one attachment for each part whose
    body names an attachment id, in the order of the same walk, and nothing
    else. *)
Theorem processAttachmentParts_lists_in_order :
  forall (part : GmailMessagePart),
    processAttachmentParts part
    = flat_map (fun p => own_attachment (part_mimeType p) (part_filename p) (part_body p))
               (preorder part).
Proof.
  induction part as [m f b|m f b ps IH] using GmailMessagePart_rect_parts.
  - simpl. reflexivity.
  - cbn [processAttachmentParts preorder flat_map part_mimeType part_filename part_body].
    f_equal.
    induction IH as [|p ps Hp _ IHps]; [reflexivity|].
    rewrite flat_map_app, Hp, IHps. reflexivity.
Qed.

Lemma own_attachment_named mimeType filename body :
  Forall (fun a => att_filename a <> "") (own_attachment mimeType filename body).
Proof.
  unfold own_attachment. destruct body as [b|]; [|constructor].
  destruct (truthy (attachmentId b)); constructor; [|constructor].
  simpl. apply GmailServerMoreFacts.or_else_nonempty. discriminate.
Qed.

Lemma attachments_named (part : GmailMessagePart) :
  Forall (fun a => att_filename a <> "") (processAttachmentParts part).
Proof.
  induction part as [m f b|m f b ps IH] using GmailMessagePart_rect_parts.
  - cbn [processAttachmentParts]. rewrite app_nil_r. apply own_attachment_named.
  - cbn [processAttachmentParts]. apply Forall_app. split; [apply own_attachment_named|].
    induction IH as [|p ps Hp _ IHps]; [constructor|].
    apply Forall_app. split; assumption.
Qed.

Lemma findAttachment_is_first_listed (wanted : string) :
  wanted <> "" ->
  forall (part : GmailMessagePart),
    findAttachment wanted part
    = option_map att_filename
        (find (fun a => String.eqb (att_id a) wanted) (processAttachmentParts part)).
Proof.
  intros Hw.
  assert (Hown : forall m f b,
    (if match b with
        | Some b' => match attachmentId b' with
                     | Some id => String.eqb id wanted
                     | None => false
                     end
        | None => false
        end
     then Some (or_else f ("attachment-" ++ wanted))
     else None)
    = option_map att_filename
        (find (fun a => String.eqb (att_id a) wanted) (own_attachment m f b))
    /\ (match b with
        | Some b' => match attachmentId b' with
                     | Some id => String.eqb id wanted
                     | None => false
                     end
        | None => false
        end = false ->
        find (fun a => String.eqb (att_id a) wanted) (own_attachment m f b) = None)).
  { intros m f [b|]; [|split; reflexivity]. unfold own_attachment.
    destruct (attachmentId b) as [id|]; [|split; reflexivity].
    destruct (String.eqb id wanted) eqn:E.
    - apply String.eqb_eq in E. subst id.
      assert (Et : truthy (Some wanted) = true).
      { simpl. destruct (String.eqb_spec wanted ""); [contradiction|reflexivity]. }
      assert (Eo : or_else (Some wanted) "" = wanted).
      { simpl. destruct (String.eqb_spec wanted ""); [contradiction|reflexivity]. }
      rewrite Et, Eo. cbn [find att_id]. rewrite String.eqb_refl.
      split; [reflexivity|discriminate].
    - destruct (truthy (Some id)) eqn:Et; [|split; reflexivity].
      assert (Eo : or_else (Some id) "" = id).
      { simpl in *. destruct (String.eqb id ""); [discriminate|reflexivity]. }
      rewrite Eo. cbn [find att_id]. rewrite E. split; reflexivity. }
  induction part as [m f b|m f b ps IH] using GmailMessagePart_rect_parts.
  - cbn [findAttachment processAttachmentParts]. rewrite app_nil_r.
    destruct (Hown m f b) as [H1 _].
    destruct (match b with Some _ => _ | None => _ end); exact H1.
  - cbn [findAttachment processAttachmentParts]. rewrite find_app_.
    destruct (Hown m f b) as [H1 H2].
    destruct (match b with Some _ => _ | None => _ end) eqn:Eb.
    + rewrite H1.
      destruct (find _ (own_attachment m f b)); [reflexivity|discriminate].
    + rewrite (H2 eq_refl).
      induction IH as [|p ps Hp _ IHps]; [reflexivity|].
      rewrite Hp, find_app_.
      pose proof (attachments_named p) as Hnamed.
      destruct (find _ (processAttachmentParts p)) as [a|] eqn:Ef.
      * apply find_some in Ef. destruct Ef as [Hin _].
        rewrite Forall_forall in Hnamed. specialize (Hnamed a Hin).
        cbn [option_map].
        destruct (String.eqb_spec (att_filename a) ""); [contradiction|reflexivity].
      * cbn [option_map]. exact IHps.
Qed.

(** X24.  The name [download_attachment] saves under when none is given is
    the file name [read_email] lists for the first attachment with the wanted
    id; when the message has no such attachment it is [attachment-<id>]. *)
Theorem download_filename_matches_listing :
  forall (wanted : string) (payload : GmailMessagePart),
    wanted <> "" ->
    download_filename wanted payload
    = match find (fun a => String.eqb (att_id a) wanted) (processAttachmentParts payload) with
      | Some a => att_filename a
      | None => "attachment-" ++ wanted
      end.
Proof.
  intros wanted payload Hw. unfold download_filename.
  rewrite (findAttachment_is_first_listed wanted Hw payload).
  pose proof (attachments_named payload) as Hnamed.
  destruct (find _ (processAttachmentParts payload)) as [a|] eqn:Ef; [|reflexivity].
  apply find_some in Ef. destruct Ef as [Hin _].
  rewrite Forall_forall in Hnamed. specialize (Hnamed a Hin).
  cbn [option_map or_else].
  destruct (String.eqb_spec (att_filename a) ""); [contradiction|reflexivity].
Qed.


Lemma download_filename_matches_listing_witness :
  download_filename "att-1" MoreScenarios.message_with_report
  = match find (fun a => String.eqb (att_id a) "att-1")
               (processAttachmentParts MoreScenarios.message_with_report) with
    | Some a => att_filename a
    | None => "attachment-" ++ "att-1"
    end.
Proof.
  apply download_filename_matches_listing. discriminate.
Defined.

End MimeFacts.
